(** * api-error: the error model of [src/index.js], embedded and verified

    The file embeds the JavaScript classes of [src/index.js] (the base class
    [ApiError], its twelve thin variants and [Aggregated]) as functions over a
    small universe of JavaScript values, and proves the properties the
    specification states about them.

    Conventions of the embedding.
    - A JavaScript object literal / options bag is a finite map from property
      names to values ([gmap string value]); a key bound to [VUndefined] is a
      property that is present and holds [undefined].
    - An instance of [ApiError] (or of a subclass) is a record of the fields
      the constructors assign, tagged with the class it was created with.
    - Strings are ASCII strings; numbers are the integers (status codes).
    - A method that can throw returns a [result].
    - The options of a constructor call are a mapping. A call that passes an
      array or an error instance as its only argument makes that value the
      options (line 41), which a mapping does not render: the properties
      that depend on the options exclude such calls ([options_as_mapping]). *)

From stdpp Require Import base gmap strings list.

From Stdlib Require Import ZArith Ascii String.

Open Scope Z_scope.

(** ** Outcomes of code that may throw *)

(** The only exception the model meets is [TypeError]: raised by
    [Aggregated._check] with a message of its own ([Some msg]), or by the
    engine when a property of [null]/[undefined] is read or something that is
    not a function is called ([None]: the engine's wording is not fixed). *)
Inductive exn := TypeError (msg : option string).

Inductive result (A : Type) :=
| Ok (a : A)
| Throw (e : exn).
Arguments Ok {A} a.
Arguments Throw {A} e.

#[global] Instance result_ret : MRet result := λ A a, Ok a.

#[global] Instance result_bind : MBind result := λ A B f r,
  match r with Ok a => f a | Throw e => Throw e end.

#[global] Instance result_fmap : FMap result := λ A B f r,
  match r with Ok a => Ok (f a) | Throw e => Throw e end.

Section mapM_result.

Context {A B : Type} (f : A → result B).

(** [Array.prototype.map] with a callback that may throw: elements are
    visited in order and the first exception escapes. *)
Fixpoint mapM_result (l : list A) : result (list B) :=
  match l with
  | [] => Ok []
  | x :: l' =>
      match f x with
      | Ok y => match mapM_result l' with
                | Ok ys => Ok (y :: ys)
                | Throw e => Throw e
                end
      | Throw e => Throw e
      end
  end.

End mapM_result.

Section mapM_fuel.

Context {A B : Type} (f : A → option (result B)).

(** [map] with a callback that may throw or run out of fuel. *)
Fixpoint mapM_fuel (l : list A) : option (result (list B)) :=
  match l with
  | [] => Some (Ok [])
  | x :: l' =>
      match f x with
      | None => None
      | Some (Throw e) => Some (Throw e)
      | Some (Ok y) =>
          match mapM_fuel l' with
          | None => None
          | Some (Throw e) => Some (Throw e)
          | Some (Ok ys) => Some (Ok (y :: ys))
          end
      end
  end.

End mapM_fuel.

(** ** The classes of [src/index.js] *)

Inductive Class :=
| ApiError
| NotAuthorized | PaymentRequired | Forbidden
| NotFound | Conflict | MethodNotAllowed | BadRequest | TooManyRequests
| PayloadTooLarge | InternalError | NotImplemented | ServiceUnavailable
| Aggregated.

#[global] Instance Class_eq_dec : EqDecision Class.
Proof. solve_decision. Defined.

(** ** Values and instances *)

(** The fields an [ApiError] instance owns, over the type [V] of values.
    [proto] is the class the instance was created with ([new C(...)]);
    [stack] is the raw trace the host's [Error] constructor captured;
    [_errors] is assigned by [Aggregated] only. *)
Record ErrorOf (V : Type) := MkError {
  proto : Class;
  message : V;
  _name : V;
  _entity : V;
  _statusCode : V;
  _stacked : V;
  _options : gmap string V;
  _keyPath : V;
  _origin : V;
  _underlying : V;
  stack : V;
  _errors : V;
}.
Arguments MkError {V}.
Arguments proto {V}.
Arguments message {V}.
Arguments _name {V}.
Arguments _entity {V}.
Arguments _statusCode {V}.
Arguments _stacked {V}.
Arguments _options {V}.
Arguments _keyPath {V}.
Arguments _origin {V}.
Arguments _underlying {V}.
Arguments stack {V}.
Arguments _errors {V}.

#[warnings="-register-all"]
Inductive value :=
| VUndefined
| VNull
| VBool (b : bool)
| VNum (n : Z)
| VStr (s : string)
| VArr (l : list value)
| VObj (m : gmap string value)
| VErr (e : ErrorOf value).

Abbreviation obj := (gmap string value).

Abbreviation instance := (ErrorOf value).

(** ** JavaScript primitives used by the source *)

(** ToBoolean. *)
Definition truthy (v : value) : bool :=
  match v with
  | VUndefined | VNull => false
  | VBool b => b
  | VNum n => negb (n =? 0)
  | VStr s => negb (String.eqb s "")
  | VArr _ | VObj _ | VErr _ => true
  end.

(** [a || b]. *)
Definition or_ (a b : value) : value := if truthy a then a else b.

Definition nullish (v : value) : bool :=
  match v with VUndefined | VNull => true | _ => false end.

(** [o.k] on an object literal: an absent key reads as [undefined]. *)
Definition get (o : obj) (k : string) : value := default VUndefined (o !! k).

(** The properties of an instance that plain reads reach: the own fields and
    the getters that return them ([get name() { return this._name }], ...).
    The getter [errors] exists on [Aggregated.prototype] only. The computed
    getters [actual] and [stacked] are the functions of the same names below. *)
Definition instance_prop (e : instance) (k : string) : value :=
  if String.eqb k "message" then message e
  else if String.eqb k "stack" then stack e
  else if String.eqb k "name" || String.eqb k "_name" then _name e
  else if String.eqb k "entity" || String.eqb k "_entity" then _entity e
  else if String.eqb k "statusCode" || String.eqb k "_statusCode" then _statusCode e
  else if String.eqb k "keyPath" || String.eqb k "_keyPath" then _keyPath e
  else if String.eqb k "options" || String.eqb k "_options" then VObj (_options e)
  else if String.eqb k "origin" || String.eqb k "_origin" then _origin e
  else if String.eqb k "underlying" || String.eqb k "_underlying" then _underlying e
  else if String.eqb k "_stacked" then _stacked e
  else if String.eqb k "_errors" then _errors e
  else if String.eqb k "errors" then
    match proto e with Aggregated => _errors e | _ => VUndefined end
  else VUndefined.

(** [v.k] for a receiver [v] that is neither [null] nor [undefined]. *)
Definition prop (v : value) (k : string) : value :=
  match v with
  | VObj m => get m k
  | VErr e => instance_prop e k
  | VArr l => if String.eqb k "length" then VNum (Z.of_nat (List.length l)) else VUndefined
  | VStr s => if String.eqb k "length" then VNum (Z.of_nat (String.length s)) else VUndefined
  | _ => VUndefined
  end.

(** [v.k] for any receiver: reading a property of [null] or [undefined]
    throws. *)
Definition read (v : value) (k : string) : result value :=
  if nullish v then Throw (TypeError None) else Ok (prop v k).

(** ** The deep-merge utility *)

(** Modelled from the spec: the package [@trenskow/merge] imported on line 1
    is not part of the sources. The specification (section 6) gives its
    contract: [merge(target, ...sources)] is a right-biased deep merge that
    does not mutate its inputs. Two mappings bound to the same key are merged
    key by key; in every other case the later value wins (arrays and error
    instances are passed through whole). *)
Fixpoint merge_value (t s : value) : value :=
  match t, s with
  | VObj mt, VObj ms => VObj (union_with (λ a b, Some (merge_value a b)) mt ms)
  | _, _ => s
  end.

Definition merge_obj (t s : obj) : obj :=
  union_with (λ a b, Some (merge_value a b)) t s.

Definition merge (target : obj) (sources : list obj) : obj :=
  foldl merge_obj target sources.

(** The entries a value contributes when it is passed as a merge source: a
    mapping contributes its entries, anything else contributes none. *)
Definition entries (v : value) : obj :=
  match v with VObj m => m | _ => ∅ end.

(** ** String helpers of the host *)

Definition dot : ascii := "."%char.

(** [s.split('.')]. *)
Fixpoint split_dot (s : string) : list string :=
  match s with
  | EmptyString => [EmptyString]
  | String c s' =>
      if Ascii.eqb c dot then EmptyString :: split_dot s'
      else match split_dot s' with
           | h :: t => String c h :: t
           | [] => [String c EmptyString]
           end
  end.

(** [l.join(sep)] on strings. *)
Fixpoint join (sep : string) (l : list string) : string :=
  match l with
  | [] => EmptyString
  | [a] => a
  | a :: l' => a +:+ sep +:+ join sep l'
  end.

Definition is_upper (c : ascii) : bool :=
  (65 <=? nat_of_ascii c)%nat && (nat_of_ascii c <=? 90)%nat.

Definition lower (c : ascii) : ascii :=
  if is_upper c then ascii_of_nat (nat_of_ascii c + 32) else c.

(** [s.toLowerCase()]. *)
Fixpoint toLowerCase (s : string) : string :=
  match s with
  | EmptyString => EmptyString
  | String c s' => String (lower c) (toLowerCase s')
  end.

(** [s.split(/(?=[A-Z])/)]: a cut before every upper-case letter except at
    position 0 (an empty match at the start of the string does not split). *)
Fixpoint split_upper (s : string) : list string :=
  match s with
  | EmptyString => [EmptyString]
  | String c s' =>
      match s' with
      | EmptyString => [String c EmptyString]
      | String c' _ =>
          if is_upper c' then String c EmptyString :: split_upper s'
          else match split_upper s' with
               | h :: t => String c h :: t
               | [] => [String c EmptyString]
               end
      end
  end.

(** [name.split(/(?=[A-Z])/).join('-').toLowerCase()] (line 126). *)
Definition kebab (s : string) : string :=
  toLowerCase (join "-" (split_upper s)).

(** ** The name-to-class table and the per-variant constants *)

(** [ApiError._type] (lines 6-23). [switch] compares with [===], so only a
    string can select a variant. *)
Definition _type (name : value) : Class :=
  match name with
  | VStr s =>
      if String.eqb s "not-authorized" then NotAuthorized
      else if String.eqb s "payment-required" then PaymentRequired
      else if String.eqb s "forbidden" then Forbidden
      else if String.eqb s "not-found" then NotFound
      else if String.eqb s "already-exists" then Conflict
      else if String.eqb s "method-not-allowed" then MethodNotAllowed
      else if String.eqb s "bad-request" then BadRequest
      else if String.eqb s "too-many-requests" then TooManyRequests
      else if String.eqb s "payload-too-large" then PayloadTooLarge
      else if String.eqb s "internal-error" then InternalError
      else if String.eqb s "not-implemented" then NotImplemented
      else if String.eqb s "service-unavailable" then ServiceUnavailable
      else if String.eqb s "aggregated" then Aggregated
      else ApiError
  | _ => ApiError
  end.



(** The message each variant's constructor falls back to
    ([message || '...'], lines 140, 152, ..., 286). The base class has none. *)
Definition default_message (c : Class) : string :=
  match c with
  | ApiError => ""
  | NotAuthorized => "Not authorized."
  | PaymentRequired => "Payment required."
  | Forbidden => "Forbidden."
  | NotFound => "Resource not found."
  | Conflict => "Resource already exists."
  | MethodNotAllowed => "Method is not allowed."
  | BadRequest => "Bad request"
  | TooManyRequests => "Too many requests."
  | PayloadTooLarge => "Payload too large."
  | InternalError => "Internal server error."
  | NotImplemented => "Not implemented."
  | ServiceUnavailable => "Service unavailable."
  | Aggregated => "Multiple errors occurred."
  end.

(** The name each variant's constructor writes (lines 141, 153, ..., 287). *)
Definition wire_name (c : Class) : string :=
  match c with
  | ApiError => ""
  | NotAuthorized => "not-authorized"
  | PaymentRequired => "payment-required"
  | Forbidden => "forbidden"
  | NotFound => "not-found"
  | Conflict => "already-exists"
  | MethodNotAllowed => "method-not-allowed"
  | BadRequest => "bad-request"
  | TooManyRequests => "too-many-requests"
  | PayloadTooLarge => "payload-too-large"
  | InternalError => "internal-error"
  | NotImplemented => "not-implemented"
  | ServiceUnavailable => "service-unavailable"
  | Aggregated => "aggregated"
  end.

(** The status each variant's constructor writes (lines 142, 154, ..., 288);
    500 is the base constructor's fallback (line 66). *)
Definition status (c : Class) : Z :=
  match c with
  | ApiError => 500
  | NotAuthorized => 401
  | PaymentRequired => 402
  | Forbidden => 403
  | NotFound => 404
  | Conflict => 409
  | MethodNotAllowed => 405
  | BadRequest => 400
  | TooManyRequests => 429
  | PayloadTooLarge => 413
  | InternalError => 500
  | NotImplemented => 501
  | ServiceUnavailable => 503
  | Aggregated => 400
  end.

(** Whether the variant's constructor writes [options.name || '<fixed>']
    (lines 177, 189, ..., 287) rather than the bare fixed name
    (lines 141, 153, 165). *)
Definition name_overridable (c : Class) : bool :=
  match c with
  | ApiError | NotAuthorized | PaymentRequired | Forbidden => false
  | _ => true
  end.

Definition is_variant (c : Class) : bool :=
  match c with ApiError => false | _ => true end.

(** ** Constructors *)

(** [ApiError._correctArguments] (lines 39-50). The construction API takes a
    message, an options mapping, or both (specification, section 6):
    [options] is [None] when the second argument is omitted or falsy, and the
    one-argument form [new C(options)] is the first argument being a mapping
    ([typeof message === 'object' && message !== null && !options]).

    The test of line 41 also holds of an array and of an error instance
    passed alone: the code then takes that value itself for the options,
    reads [message], [name], [statusCode], ... off it and deletes from it in
    place. Options of that kind are not mappings and the function below does
    not render them; it is the code's normalisation on the calls singled out
    by [options_as_mapping], and only on those. *)
Definition _correctArguments (message : value) (options : option obj)
  : value * obj :=
  match message, options with
  | VObj o, None => (get o "message", o)
  | _, _ => (message, default ∅ options)
  end.

(** The calls whose options are a mapping: every call with a second
    argument, and every one-argument call whose argument is not an array or
    an error instance. *)
Definition options_as_mapping (message : value) (options : option obj) : bool :=
  match message, options with
  | (VArr _ | VErr _), None => false
  | _, _ => true
  end.

(** The base constructor (lines 56-85), run for an instance of class
    [new_target]; [trace] is the raw stack the host captures in [super()]. *)
Definition ApiError_constructor (new_target : Class)
    (message : value) (options : option obj) (trace : string) : instance :=
  let '(message, options) := _correctArguments message options in
  let name := get options "name" in
  let entity := get options "entity" in
  let statusCode := or_ (get options "statusCode") (VNum 500) in
  let stacked := get options "stack" in
  let options := delete "message" options in
  let options := delete "name" options in
  let options := delete "entity" options in
  let options := delete "statusCode" options in
  let options := delete "stack" options in
  let options :=
    match get options "keyPath" with
    | VStr s => <["keyPath" := VArr (VStr <$> split_dot s)]> options
    | _ => options
    end in
  {| proto := new_target;
     message := message;
     _name := name;
     _entity := entity;
     _statusCode := statusCode;
     _stacked := stacked;
     _options := options;
     _keyPath := get options "keyPath";
     _origin := get options "origin";
     _underlying := get options "underlying";
     stack := VStr trace;
     _errors := VUndefined |}.

(** The [name] entry a variant's constructor merges over the options. *)
Definition name_entry (c : Class) (options : obj) : value :=
  if name_overridable c then or_ (get options "name") (VStr (wire_name c))
  else VStr (wire_name c).

(** The options a variant's constructor hands to [super]. *)
Definition variant_options (c : Class) (o : obj) : obj :=
  merge ∅ [o; {[ "name" := name_entry c o; "statusCode" := VNum (status c) ]}].

(** The constructors of the twelve thin variants (lines 136-278), and the
    [super(...)] call of [Aggregated] (lines 284-289), which has the same
    shape: normalise the arguments, default the message, merge the variant's
    entries over the options, call the base constructor. *)
Definition variant_constructor (c : Class)
    (message : value) (options : option obj) (trace : string) : instance :=
  let '(message, options) := _correctArguments message options in
  ApiError_constructor c
    (or_ message (VStr (default_message c)))
    (Some (variant_options c options)) trace.

Definition with_errors (errors : value) (this : instance) : instance :=
  {| proto := proto this; message := message this; _name := _name this;
     _entity := _entity this; _statusCode := _statusCode this;
     _stacked := _stacked this; _options := _options this;
     _keyPath := _keyPath this; _origin := _origin this;
     _underlying := _underlying this; stack := stack this;
     _errors := errors |}.

(** [options.underlying?.errors]. *)
Definition underlying_errors (options : obj) : value :=
  let underlying := get options "underlying" in
  if nullish underlying then VUndefined else prop underlying "errors".

(** The constructor of [Aggregated] (lines 282-293). *)
Definition Aggregated_constructor
    (message : value) (options : option obj) (trace : string) : instance :=
  let this := variant_constructor Aggregated message options trace in
  let '(_, options) := _correctArguments message options in
  with_errors
    (or_ (underlying_errors options) (or_ (get options "errors") (VArr [])))
    this.

(** [new C(message, options)]. *)
Definition new (c : Class)
    (message : value) (options : option obj) (trace : string) : instance :=
  match c with
  | ApiError => ApiError_constructor ApiError message options trace
  | Aggregated => Aggregated_constructor message options trace
  | _ => variant_constructor c message options trace
  end.

(** ** Accessors *)

(** [get actual()] (lines 115-117). *)
Definition actual (this : instance) : value :=
  or_ (prop (or_ (_underlying this) (VObj ∅)) "underlying")
      (or_ (_underlying this) (VErr this)).

(** [get options()] (lines 103-105). *)
Definition options (this : instance) : obj := _options this.

(** [get statusCode()], [get name()] (lines 87-97). *)
Definition statusCode (this : instance) : value := _statusCode this.

Definition name (this : instance) : value := _name this.

(** ** Reconstruction *)

(** [ApiError.parse] (lines 25-37). The recursion follows the nesting of
    the payload's [errors] arrays; [fuel] bounds its depth and [None] means
    the bound was too small. The fourth argument of the inner call
    ([error.stack]) is evaluated and dropped. *)
Fixpoint parse (fuel : nat) (data statusCode origin : value) (trace : string)
  : option (result instance) :=
  match fuel with
  | O => None
  | S fuel =>
      match read data "message" with
      | Throw e => Some (Throw e)
      | Ok message =>
          let options :=
            merge ∅ [entries data;
                     {[ "message" := message;
                        "statusCode" := statusCode;
                        "origin" := origin ]}] in
          let errors :=
            match get options "errors" with
            | VUndefined | VNull => Some (Ok VUndefined)
            | VArr l =>
                match
                  mapM_fuel
                    (λ error,
                       match read error "stack" with
                       | Throw e => Some (Throw e)
                       | Ok _ =>
                           match parse fuel error statusCode origin trace with
                           | Some (Ok child) => Some (Ok (VErr child))
                           | Some (Throw e) => Some (Throw e)
                           | None => None
                           end
                       end) l
                with
                | Some (Ok children) => Some (Ok (VArr children))
                | Some (Throw e) => Some (Throw e)
                | None => None
                end
            | _ => Some (Throw (TypeError None))
            end in
          match errors with
          | None => None
          | Some (Throw e) => Some (Throw e)
          | Some (Ok errors) =>
              let options := <["errors" := errors]> options in
              Some (Ok (new (_type (or_ (prop data "name") (VStr "bad-request")))
                            (VObj options) None trace))
          end
      end
  end.

(** ** Aggregated: the checked collection *)

(** The callback of [every] in [_check] (lines 297-304): walk the prototype
    chain looking for a constructor named [ApiError]. Every instance has
    [ApiError.prototype] on its chain; a primitive, an array or a plain
    mapping has not; [Object.getPrototypeOf] throws on [null] and
    [undefined]. *)
Definition has_ApiError_prototype (error : value) : result bool :=
  match error with
  | VErr _ => Ok true
  | VUndefined | VNull => Throw (TypeError None)
  | _ => Ok false
  end.

(** [errors.every(...)]: stops at the first element that fails. *)
Fixpoint every (l : list value) : result bool :=
  match l with
  | [] => Ok true
  | error :: l' =>
      match has_ApiError_prototype error with
      | Ok true => every l'
      | Ok false => Ok false
      | Throw e => Throw e
      end
  end.

Definition isArray (v : value) : bool :=
  match v with VArr _ => true | _ => false end.

Definition _check_message : string :=
  "Error must an array of type `ApiError`.".

(** [Aggregated.prototype._check] (lines 295-308). *)
Definition _check (errors : value) : result value :=
  match errors with
  | VArr l =>
      match every l with
      | Ok true => Ok errors
      | Ok false => Throw (TypeError (Some _check_message))
      | Throw e => Throw e
      end
  | _ => Throw (TypeError (Some _check_message))
  end.

(** [get errors()] (lines 314-316). *)
Definition errors (this : instance) : value := _errors this.

(** [set errors(errors)] (lines 318-320). *)
Definition set_errors (errors : value) (this : instance)
  : instance * result unit :=
  match _check errors with
  | Throw e => (this, Throw e)
  | Ok checked => (with_errors checked this, Ok ())
  end.

(** ** Serialisation, and what depends on the host *)

Section Host.

(** The stack formatter [@trenskow/stack] imported on line 2: an opaque
    function from a raw trace to a structured stack. *)
Variable trenskow_stack : value → value.

(** The engine's string conversion of values that are not strings, and its
    test [ToNumber(v) > 0] for values that are not numbers. *)
Variable ToString : value → string.

Variable ToNumber_positive : value → bool.

(** [ApiError.stackToJSON] (lines 52-54). *)
Definition stackToJSON (s : value) : value := trenskow_stack s.

(** [get stacked()] (lines 119-122). *)
Definition stacked (this : instance) : value :=
  if truthy (prop (actual this) "_stacked") then prop (actual this) "_stacked"
  else stackToJSON (prop (actual this) "stack").

(** [v > 0]. *)
Definition gt_zero (v : value) : bool :=
  match v with
  | VNum n => 0 <? n
  | VBool b => b
  | VUndefined | VNull => false
  | _ => ToNumber_positive v
  end.

(** The string an array element contributes to [Array.prototype.join]. *)
Definition element_string (v : value) : string :=
  match v with
  | VStr s => s
  | VUndefined | VNull => ""
  | _ => ToString v
  end.

(** The [name] entry of line 126. Only a string has [split]. *)
Definition name_json (name : value) : result value :=
  if truthy name then
    match name with
    | VStr s => Ok (VStr (kebab s))
    | _ => Throw (TypeError None)
    end
  else Ok VUndefined.

(** The [keyPath] entry of line 129. Only an array has [join]. *)
Definition keyPath_json (keyPath : value) : result value :=
  if truthy keyPath then
    if gt_zero (prop keyPath "length") then
      match keyPath with
      | VArr l => Ok (VStr (join "." (element_string <$> l)))
      | _ => Throw (TypeError None)
      end
    else Ok VUndefined
  else Ok VUndefined.

(** The object literal of lines 125-131. *)
Definition base_json (this : instance) (config : obj) (name keyPath : value)
  : obj :=
  {[ "name" := name;
     "message" := message this;
     "entity" := _entity this;
     "keyPath" := keyPath;
     "stack" := if truthy (get config "includeStack")
                then stacked this else VUndefined ]}.

(** [ApiError.prototype.toJSON] (lines 124-132); [options] is the
    serialisation config. *)
Definition ApiError_toJSON (this : instance) (options : obj) : result obj :=
  name ← name_json (_name this);
  keyPath ← keyPath_json (_keyPath this);
  mret (base_json this options name keyPath).

(** [error.toJSON(options)] for a value [error]: the method of
    [Aggregated] (lines 322-327) for an instance of that class, the base
    method for every other instance; a value that is not an instance has no
    such method, and calling it throws. *)
Fixpoint toJSON (error : value) (options : obj) : result obj :=
  match error with
  | VErr this =>
      match proto this with
      | Aggregated =>
          base ← ApiError_toJSON this options;
          errors ←
            match _errors this with
            | VArr l => mapM_result (λ error, toJSON error options) l
            | _ => Throw (TypeError None)
            end;
          mret (merge ∅ [base; {[ "errors" := VArr (VObj <$> errors) ]}])
      | _ => ApiError_toJSON this options
      end
  | _ => Throw (TypeError None)
  end.

(** [receiver.concat(arg)]: an array appends the elements of an array
    argument (or the argument itself), a string appends the argument's string
    conversion, nothing else has [concat]. *)
Definition concat (receiver arg : value) : result value :=
  match receiver with
  | VArr l => Ok (VArr (l ++ match arg with VArr a => a | _ => [arg] end))
  | VStr s => Ok (VStr (s +:+ ToString arg))
  | _ => Throw (TypeError None)
  end.

(** [Aggregated.prototype.add] (lines 310-312): the instance after the call
    and the call's outcome. [this._errors.concat] is looked up first, then
    [_check] runs, then [concat], and only then is [_errors] assigned. *)
Definition add (error : value) (this : instance) : instance * result unit :=
  if nullish (_errors this) then (this, Throw (TypeError None))
  else
    match _check (if isArray error then error else VArr [error]) with
    | Throw e => (this, Throw e)
    | Ok checked =>
        match concat (_errors this) checked with
        | Throw e => (this, Throw e)
        | Ok errors => (with_errors errors this, Ok ())
        end
    end.

End Host.

(** * Auxiliary definitions *)

(** The root of the [underlying] chain in the specification's words: follow
    the [underlying] links for as long as the current error has one; the
    error reached last is the root. *)
Fixpoint root (v : value) : value :=
  match v with
  | VErr e => if truthy (_underlying e) then root (_underlying e) else v
  | _ => v
  end.

(** The [keyPath] the base constructor stores (lines 77-79). *)
Definition normal_keyPath (keyPath : value) : value :=
  match keyPath with
  | VStr s => VArr (VStr <$> split_dot s)
  | _ => keyPath
  end.

(** The options [parse] hands to the selected constructor, given the
    reconstructed children. *)
Definition parse_options (data : obj) (statusCode origin errors : value) : obj :=
  <["errors" := errors]>
    (merge ∅ [data; {[ "message" := get data "message";
                       "statusCode" := statusCode;
                       "origin" := origin ]}]).

(** The value [parse] stores back as [options.errors] (line 33). *)
Definition parse_children (fuel : nat) (errors statusCode origin : value)
    (trace : string) : option (result value) :=
  match errors with
  | VUndefined | VNull => Some (Ok VUndefined)
  | VArr l =>
      match
        mapM_fuel
          (λ error,
             match read error "stack" with
             | Throw e => Some (Throw e)
             | Ok _ =>
                 match parse fuel error statusCode origin trace with
                 | Some (Ok child) => Some (Ok (VErr child))
                 | Some (Throw e) => Some (Throw e)
                 | None => None
                 end
             end) l
      with
      | Some (Ok children) => Some (Ok (VArr children))
      | Some (Throw e) => Some (Throw e)
      | None => None
      end
  | _ => Some (Throw (TypeError None))
  end.

(** The nesting weight of a value, counting mappings only: the measure for
    reasoning about [merge_value]. *)
Fixpoint weight (v : value) : nat :=
  match v with
  | VObj m => S (map_fold (λ _ x n, (weight x + n)%nat) 0%nat m)
  | _ => 0%nat
  end.

(** The nesting depth of an error through its [_errors] collection. *)
Fixpoint depth (v : value) : nat :=
  match v with
  | VErr e =>
      match _errors e with
      | VArr l => S (foldr (λ c n, Nat.max (depth c) n) 0%nat l)
      | _ => 0%nat
      end
  | _ => 0%nat
  end.

Definition is_instance (v : value) : bool :=
  match v with VErr _ => true | _ => false end.

(** An array whose elements are all error instances. *)
Definition all_instances (v : value) : bool :=
  match v with VArr l => forallb is_instance l | _ => false end.

(** The field names of the wire shape (specification, section 6). *)
Definition wire_fields : gset string :=
  {[ "name"; "message"; "entity"; "keyPath"; "stack"; "errors" ]}.

(** A serialised error: only wire fields, and under [errors] only serialised
    errors again. *)
#[warnings="-register-all"]
Inductive wire_shaped : obj → Prop :=
| wire_shaped_intro (json : obj) :
    dom json ⊆ wire_fields →
    (∀ l, json !! "errors" = Some (VArr l) →
          Forall (λ v, ∃ child, v = VObj child ∧ wire_shaped child) l) →
    wire_shaped json.

(** Strings without a dot. *)
Fixpoint dot_free (s : string) : bool :=
  match s with
  | EmptyString => true
  | String c s' => negb (Ascii.eqb c dot) && dot_free s'
  end.

(** The key paths that survive [join('.')] followed by [split('.')]: absent,
    or a non-empty sequence of strings none of which contains a dot. *)
Definition stable_keyPath (keyPath : value) : bool :=
  match keyPath with
  | VUndefined => true
  | VArr l =>
      negb (bool_decide (l = [])) &&
      forallb (λ v, match v with VStr s => dot_free s | _ => false end) l
  | _ => false
  end.

(** ** Sample instances *)

(** [new ApiError(message, {underlying})]. *)
Definition wrapping (msg : string) (underlying : value) : instance :=
  new ApiError (VStr msg) (Some {[ "underlying" := underlying ]}) "".

Definition chain_D : instance := new ApiError (VStr "d") None "".

Definition chain_C : instance := wrapping "c" (VErr chain_D).

Definition chain_B : instance := wrapping "b" (VErr chain_C).

Definition chain_A : instance := wrapping "a" (VErr chain_B).

(** [new NotFound('gone', {entity: 'user', origin: 'svc'})] serialised with
    its stack. *)
Definition sample_error : instance :=
  new NotFound (VStr "gone")
    (Some {[ "entity" := VStr "user"; "origin" := VStr "svc" ]}) "at f".

Definition sample_json : obj :=
  {[ "name" := VStr "not-found";
     "message" := VStr "gone";
     "entity" := VStr "user";
     "keyPath" := VUndefined;
     "stack" := VArr [VStr "at f"] ]}.

(** An [Aggregated] holding one [NotFound], and its serialisation. *)
Definition sample_child : instance :=
  new NotFound (VStr "gone")
    (Some {[ "entity" := VStr "user"; "keyPath" := VStr "a.b" ]}) "at f".

Definition sample_aggregated : instance :=
  new Aggregated (VStr "two")
    (Some {[ "errors" := VArr [VErr sample_child]; "entity" := VStr "form" ]})
    "at g".

Definition sample_aggregated_json : obj :=
  {[ "name" := VStr "aggregated";
     "message" := VStr "two";
     "entity" := VStr "form";
     "keyPath" := VUndefined;
     "stack" := VArr [VStr "at g"];
     "errors" :=
       VArr [VObj {[ "name" := VStr "not-found";
                     "message" := VStr "gone";
                     "entity" := VStr "user";
                     "keyPath" := VStr "a.b";
                     "stack" := VArr [VStr "at f"] ]}] ]}.

(** [new NotFound({name: 'custom'})] and its serialisation. *)
Definition renamed_error : instance :=
  new NotFound (VObj {[ "name" := VStr "custom" ]}) None "at f".

Definition renamed_json : obj :=
  {[ "name" := VStr "custom";
     "message" := VStr "Resource not found.";
     "entity" := VUndefined;
     "keyPath" := VUndefined;
     "stack" := VArr [VStr "at f"] ]}.

(** [new NotFound({keyPath: []})] and its serialisation. *)
Definition empty_keyPath_error : instance :=
  new NotFound (VObj {[ "keyPath" := VArr [] ]}) None "at f".

Definition empty_keyPath_json : obj :=
  {[ "name" := VStr "not-found";
     "message" := VStr "Resource not found.";
     "entity" := VUndefined;
     "keyPath" := VUndefined;
     "stack" := VArr [VStr "at f"] ]}.

(** ** Definitions for the further properties *)

(** Strings without an upper-case letter. *)
Fixpoint no_upper (s : string) : bool :=
  match s with
  | EmptyString => true
  | String c s' => negb (is_upper c) && no_upper s'
  end.

(** Strings of 7-bit characters only. Outside them JavaScript's
    [toLowerCase] also lowers letters that [lower] leaves alone. *)
Fixpoint ascii_only (s : string) : bool :=
  match s with
  | EmptyString => true
  | String c s' => (nat_of_ascii c <? 128)%nat && ascii_only s'
  end.

(** The nesting height of a payload through its arrays and mappings. *)
Fixpoint height (v : value) : nat :=
  match v with
  | VArr l => S (foldr (λ x n, Nat.max (height x) n) 0%nat l)
  | VObj m => S (map_fold (λ _ x n, Nat.max (height x) n) 0%nat m)
  | _ => 0%nat
  end.

(** The two mutations of an [Aggregated]: [add(error)] and
    [errors = errors]. *)
Inductive update :=
| Add (error : value)
| SetErrors (errors : value).

(** The instance after a sequence of mutations, each of which may have
    thrown. *)
Definition apply_update (ToString : value → string) (this : instance)
    (u : update) : instance :=
  match u with
  | Add error => (add ToString error this).1
  | SetErrors errors => (set_errors errors this).1
  end.

Definition apply_updates (ToString : value → string) (this : instance)
    (us : list update) : instance :=
  foldl (apply_update ToString) this us.

(** The option keys the base constructor consumes or rewrites. *)
Definition consumed_keys : list string :=
  ["message"; "name"; "entity"; "statusCode"; "stack"; "keyPath"].

(** A [name] option on which line 126 does not throw: a string, or falsy. *)
Definition string_or_falsy (v : value) : bool :=
  match v with VStr _ => true | _ => negb (truthy v) end.

(** The values that are not objects: their string conversion cannot throw. *)
Definition primitive (v : value) : bool :=
  match v with VArr _ | VObj _ | VErr _ => false | _ => true end.

(** A [keyPath] option that is absent, a dotted string or a sequence of
    primitive values (of strings, as a rule). *)
Definition plain_keyPath (v : value) : bool :=
  match v with
  | VUndefined | VStr _ => true
  | VArr l => forallb primitive l
  | _ => false
  end.

Definition string_or_undefined (v : value) : bool :=
  match v with VUndefined | VStr _ => true | _ => false end.

(** An error at most two [underlying] links away from the root of its
    chain. *)
Definition at_most_two_links (this : instance) : Prop :=
  match _underlying this with
  | VErr u =>
      match _underlying u with
      | VErr w => truthy (_underlying w) = false
      | v => truthy v = false
      end
  | v => truthy v = false
  end.

(** * Properties *)

Ltac map_lookups :=
  unfold get;
  repeat first
    [ rewrite lookup_delete_eq
    | rewrite lookup_insert_eq
    | rewrite lookup_singleton_eq
    | rewrite lookup_empty
    | rewrite lookup_delete_ne by discriminate
    | rewrite lookup_insert_ne by discriminate
    | rewrite lookup_singleton_ne by discriminate ].

(** Evaluate the decisions on closed keys that occur in the goal. *)
Ltac eval_decide :=
  repeat match goal with
  | |- context [bool_decide ?P] =>
      let b := eval vm_compute in (bool_decide P) in
      match b with
      | true => change (bool_decide P) with true
      | false => change (bool_decide P) with false
      end
  end; cbv iota.

(** Membership and inclusion goals over [wire_fields]. *)
Ltac solve_fields :=
  unfold wire_fields;
  repeat first [ intros ? | rewrite elem_of_union in * | rewrite elem_of_singleton in * ];
  try tauto; try (intuition discriminate).

(** ** The merge utility *)

Lemma weight_lookup (m : obj) k x :
  m !! k = Some x → (weight x < weight (VObj m))%nat.
Proof.
  intros Hk. cbn [weight].
  rewrite (map_fold_delete_L _ _ k x m); [lia | intros; lia | done].
Qed.

Lemma merge_value_idemp v : merge_value v v = v.
Proof.
  remember (weight v) as n eqn:Hn. revert v Hn.
  induction (lt_wf n) as [n _ IH]. intros v ->.
  destruct v as [| | | | | |m|]; try reflexivity.
  cbn [merge_value]. f_equal. apply union_with_idemp.
  intros k x Hk. f_equal. eapply IH; [|reflexivity]. by eapply weight_lookup.
Qed.

Lemma merge_value_later t s :
  (∀ m, s ≠ VObj m) → merge_value t s = s.
Proof. intros Hs. destruct t, s; try reflexivity. by destruct (Hs m0). Qed.

Lemma merge_obj_lookup (t s : obj) k :
  merge_obj t s !! k =
    match t !! k, s !! k with
    | Some x, Some y => Some (merge_value x y)
    | Some x, None => Some x
    | None, o => o
    end.
Proof.
  unfold merge_obj. rewrite lookup_union_with.
  by destruct (t !! k), (s !! k).
Qed.

Lemma merge_pair_lookup (a b : obj) k :
  merge ∅ [a; b] !! k =
    match a !! k, b !! k with
    | Some x, Some y => Some (merge_value x y)
    | Some x, None => Some x
    | None, o => o
    end.
Proof.
  unfold merge. cbn [foldl]. rewrite !merge_obj_lookup, lookup_empty.
  by destruct (a !! k).
Qed.

(** A key bound by the last source only. *)
Lemma get_merge_pair_r (a b : obj) k :
  a !! k = None → get (merge ∅ [a; b]) k = get b k.
Proof. intros Ha. unfold get. by rewrite merge_pair_lookup, Ha. Qed.

(** A key the last source does not bind keeps the earlier value. *)
Lemma get_merge_pair_l (a b : obj) k :
  b !! k = None → get (merge ∅ [a; b]) k = get a k.
Proof.
  intros Hb. unfold get. rewrite merge_pair_lookup, Hb. by destruct (a !! k).
Qed.

(** Right bias: a value of the last source that is not a mapping wins. *)
Lemma get_merge_pair_later (a b : obj) k y :
  b !! k = Some y → (∀ m, y ≠ VObj m) → get (merge ∅ [a; b]) k = y.
Proof.
  intros Hb Hy. unfold get. rewrite merge_pair_lookup, Hb.
  destruct (a !! k); cbn; [by apply merge_value_later | done].
Qed.

(** Merging a value over itself changes nothing. *)
Lemma get_merge_pair_same (a b : obj) k :
  b !! k = Some (get a k) → get (merge ∅ [a; b]) k = get a k.
Proof.
  intros Hb. unfold get in *. rewrite merge_pair_lookup, Hb.
  destruct (a !! k); cbn; [by rewrite merge_value_idemp | done].
Qed.

Lemma dom_merge_pair (a b : obj) : dom (merge ∅ [a; b]) = dom a ∪ dom b.
Proof.
  apply set_eq. intros k. rewrite elem_of_union, !elem_of_dom.
  rewrite merge_pair_lookup.
  destruct (a !! k), (b !! k); split; eauto; intros [[? Hk]|[? Hk]]; eauto;
    discriminate Hk.
Qed.

(** ** Construction *)

Lemma _correctArguments_Some message options :
  _correctArguments message (Some options) = (message, options).
Proof. by destruct message. Qed.

(** What the base constructor leaves in the options bag, key by key. *)
Lemma base_options_lookup c message options trace k :
  _options (ApiError_constructor c message options trace) !! k =
    let o := (_correctArguments message options).2 in
    if bool_decide (k ∈ ["message"; "name"; "entity"; "statusCode"; "stack"])
    then None
    else if bool_decide (k = "keyPath")
    then match o !! "keyPath" with
         | Some v => Some (normal_keyPath v)
         | None => None
         end
    else o !! k.
Proof.
  unfold ApiError_constructor.
  destruct (_correctArguments message options) as [m o]. cbn [snd _options].
  set (o5 := delete "stack" _).
  assert (Ho5 : ∀ j, o5 !! j =
    if bool_decide (j ∈ ["message"; "name"; "entity"; "statusCode"; "stack"])
    then None else o !! j).
  { intros j. subst o5. case_bool_decide as Hj.
    - repeat (apply elem_of_cons in Hj as [->|Hj]; [by map_lookups|]).
      by apply elem_of_nil in Hj.
    - rewrite !lookup_delete_ne; [done|intros <-; apply Hj..];
        repeat first [apply list_elem_of_here | apply list_elem_of_further]. }
  pose proof (Ho5 "keyPath") as Hkp. revert Hkp.
  clearbody o5. unfold get. eval_decide. intros Hkp. rewrite Hkp.
  destruct (decide (k = "keyPath")) as [->|Hk].
  - eval_decide.
    destruct (o !! "keyPath") as [[]|]; cbn; by rewrite ?lookup_insert_eq.
  - rewrite (bool_decide_eq_false_2 (k = "keyPath")) by done.
    rewrite <- Ho5.
    destruct (o !! "keyPath") as [[]|]; cbn; by rewrite ?lookup_insert_ne.
Qed.

(** The fields the base constructor assigns, in terms of the normalised
    arguments. *)
Lemma base_constructor_fields c msg options trace :
  let e := ApiError_constructor c msg options trace in
  let m := (_correctArguments msg options).1 in
  let o := (_correctArguments msg options).2 in
  proto e = c ∧ message e = m ∧ _name e = get o "name" ∧
  _entity e = get o "entity" ∧
  _statusCode e = or_ (get o "statusCode") (VNum 500) ∧
  _stacked e = get o "stack" ∧
  _keyPath e = normal_keyPath (get o "keyPath") ∧
  _origin e = get o "origin" ∧ _underlying e = get o "underlying" ∧
  stack e = VStr trace ∧ _errors e = VUndefined.
Proof.
  intros e m o.
  assert (Hbag : _keyPath e = get (_options e) "keyPath" ∧
                 _origin e = get (_options e) "origin" ∧
                 _underlying e = get (_options e) "underlying").
  { subst e. unfold ApiError_constructor.
    by destruct (_correctArguments msg options). }
  destruct Hbag as (-> & -> & ->). unfold get.
  subst e. rewrite !base_options_lookup. fold m o. cbv zeta. eval_decide.
  repeat split; try (subst m o; unfold ApiError_constructor;
    by destruct (_correctArguments msg options)).
  by destruct (o !! "keyPath").
Qed.

Lemma variant_constructor_eq c msg options trace :
  variant_constructor c msg options trace =
    ApiError_constructor c
      (or_ (_correctArguments msg options).1 (VStr (default_message c)))
      (Some (variant_options c (_correctArguments msg options).2)) trace.
Proof.
  unfold variant_constructor. by destruct (_correctArguments msg options).
Qed.

Lemma variant_options_other c o k :
  k ≠ "name" → k ≠ "statusCode" → get (variant_options c o) k = get o k.
Proof.
  intros. apply get_merge_pair_l.
  by rewrite lookup_insert_ne, lookup_singleton_ne.
Qed.

Lemma variant_options_statusCode c o :
  get (variant_options c o) "statusCode" = VNum (status c).
Proof.
  apply get_merge_pair_later; [by map_lookups | discriminate].
Qed.

Lemma variant_options_name c o :
  get (variant_options c o) "name" = name_entry c o.
Proof.
  unfold variant_options, name_entry, or_.
  destruct (name_overridable c); [destruct (truthy (get o "name")) eqn:Ht|].
  - apply get_merge_pair_same. by map_lookups.
  - apply get_merge_pair_later; [by map_lookups | discriminate].
  - apply get_merge_pair_later; [by map_lookups | discriminate].
Qed.

Lemma status_truthy c : or_ (VNum (status c)) (VNum 500) = VNum (status c).
Proof. by destruct c. Qed.

(** The fields of an instance built by a variant's constructor. *)
Lemma variant_constructor_fields c msg options trace :
  let e := variant_constructor c msg options trace in
  let m := (_correctArguments msg options).1 in
  let o := (_correctArguments msg options).2 in
  proto e = c ∧
  message e = or_ m (VStr (default_message c)) ∧
  _name e = name_entry c o ∧
  _entity e = get o "entity" ∧
  _statusCode e = VNum (status c) ∧
  _stacked e = get o "stack" ∧
  _keyPath e = normal_keyPath (get o "keyPath") ∧
  _origin e = get o "origin" ∧ _underlying e = get o "underlying" ∧
  stack e = VStr trace ∧ _errors e = VUndefined.
Proof.
  intros e m o. subst e. rewrite variant_constructor_eq. fold m o.
  pose proof (base_constructor_fields c (or_ m (VStr (default_message c)))
                (Some (variant_options c o)) trace) as H.
  cbv zeta in H. rewrite _correctArguments_Some in H. cbn [fst snd] in H.
  rewrite variant_options_name, variant_options_statusCode, status_truthy,
    !variant_options_other in H by discriminate.
  exact H.
Qed.

(** [new] runs the variant's constructor for every class but the base; the
    constructor of [Aggregated] assigns [_errors] on top. *)
Lemma new_variant_fields c msg options trace :
  is_variant c = true →
  let e := new c msg options trace in
  let m := (_correctArguments msg options).1 in
  let o := (_correctArguments msg options).2 in
  proto e = c ∧
  message e = or_ m (VStr (default_message c)) ∧
  _name e = name_entry c o ∧
  _entity e = get o "entity" ∧
  _statusCode e = VNum (status c) ∧
  _stacked e = get o "stack" ∧
  _keyPath e = normal_keyPath (get o "keyPath") ∧
  _origin e = get o "origin" ∧ _underlying e = get o "underlying" ∧
  stack e = VStr trace.
Proof.
  intros Hc e m o.
  pose proof (variant_constructor_fields c msg options trace) as H.
  cbv zeta in H. fold m o in H.
  destruct c; try discriminate Hc; subst e; cbn [new];
    try (unfold Aggregated_constructor;
         destruct (_correctArguments msg options); cbn [with_errors proto
           message _name _entity _statusCode _stacked _keyPath
           _origin _underlying stack]);
    tauto.
Qed.

Lemma new_options_lookup c msg opts trace k :
  k ≠ "name" → k ≠ "statusCode" →
  _options (new c msg opts trace) !! k =
    _options (ApiError_constructor c msg opts trace) !! k.
Proof.
  intros Hn Hs.
  assert (Hv : _options (variant_constructor c msg opts trace) !! k =
               _options (ApiError_constructor c msg opts trace) !! k).
  { rewrite variant_constructor_eq, !base_options_lookup,
      _correctArguments_Some. cbn [snd]. unfold variant_options.
    rewrite !merge_pair_lookup.
    rewrite !lookup_insert_ne, !lookup_singleton_ne by done.
    by destruct (_ !! "keyPath"), (_ !! k). }
  destruct c; cbn [new]; try exact Hv; [done|].
  unfold Aggregated_constructor.
  by destruct (_correctArguments msg opts).
Qed.

Lemma new_options_name_statusCode c msg opts trace :
  _options (new c msg opts trace) !! "name" = None ∧
  _options (new c msg opts trace) !! "statusCode" = None.
Proof.
  assert (Hv : ∀ m o, _options (ApiError_constructor c m o trace) !! "name" = None ∧
                      _options (ApiError_constructor c m o trace) !! "statusCode" = None).
  { intros m o. rewrite !base_options_lookup. by eval_decide. }
  destruct c; cbn [new]; try (rewrite variant_constructor_eq; apply Hv);
    [apply Hv|].
  unfold Aggregated_constructor.
  destruct (_correctArguments msg opts) eqn:E. cbn [with_errors _options].
  rewrite variant_constructor_eq. apply Hv.
Qed.

(** Fields of [new c(options)] that do not depend on the class. *)
Lemma new_fields c msg opts trace :
  let e := new c msg opts trace in
  let m := (_correctArguments msg opts).1 in
  let o := (_correctArguments msg opts).2 in
  proto e = c ∧
  message e = (if is_variant c then or_ m (VStr (default_message c)) else m) ∧
  _entity e = get o "entity" ∧
  _stacked e = get o "stack" ∧
  _keyPath e = normal_keyPath (get o "keyPath") ∧
  _underlying e = get o "underlying".
Proof.
  intros e m o. destruct (is_variant c) eqn:Hc.
  - destruct (new_variant_fields c msg opts trace Hc)
      as (? & ? & _ & ? & _ & ? & ? & _ & ? & _). done.
  - destruct c; try discriminate Hc.
    destruct (base_constructor_fields ApiError msg opts trace)
      as (? & ? & _ & ? & _ & ? & ? & _ & ? & _). done.
Qed.

(** ** Claims about construction *)

(** C3 (as amended). A variant's [statusCode] is the variant's fixed status
    whether or not the caller supplies a [statusCode] option: the variant's
    own entry is merged last and wins. Only the base class takes the
    caller's value, read from the options mapping, falling back to 500 when
    it is absent or falsy. *)
Theorem statusCode_of_new c msg opts trace :
  is_variant c = true ∨ options_as_mapping msg opts = true →
  statusCode (new c msg opts trace) =
    if is_variant c then VNum (status c)
    else or_ (get (_correctArguments msg opts).2 "statusCode") (VNum 500).
Proof.
  intros _. unfold statusCode. destruct (is_variant c) eqn:Hc.
  - by apply (new_variant_fields c msg opts trace Hc).
  - destruct c; try discriminate Hc. cbn [new].
    by apply (base_constructor_fields ApiError msg opts trace).
Qed.

(** [new NotFound({statusCode: 410})], [new ApiError({statusCode: 410})] and
    [new ApiError('m')]. *)
Lemma statusCode_of_new_witness :
  statusCode (new NotFound (VObj {[ "statusCode" := VNum 410 ]}) None "")
    = VNum 404 ∧
  statusCode (new ApiError (VObj {[ "statusCode" := VNum 410 ]}) None "")
    = VNum 410 ∧
  statusCode (new ApiError (VStr "m") None "") = VNum 500.
Proof.
  exact (conj (statusCode_of_new NotFound (VObj {[ "statusCode" := VNum 410 ]})
                 None "" (or_introl eq_refl))
          (conj (statusCode_of_new ApiError
                   (VObj {[ "statusCode" := VNum 410 ]}) None ""
                   (or_intror eq_refl))
                (statusCode_of_new ApiError (VStr "m") None ""
                   (or_intror eq_refl)))).
Defined.

(** C3 fails as stated: [new NotFound({statusCode: 410})] has status 404. *)
Lemma statusCode_option_not_honoured :
  ({[ "statusCode" := VNum 410 ]} : obj) !! "statusCode" = Some (VNum 410) ∧
  statusCode (new NotFound (VObj {[ "statusCode" := VNum 410 ]}) None "")
    ≠ VNum 410.
Proof. split; [reflexivity | vm_compute; discriminate]. Qed.

(** C4 (as amended). After a construction from an options mapping the
    options bag holds none of [name], [entity], [statusCode], [stack] (nor
    [message]); [origin] and [underlying] stay in the bag as supplied, and so
    does [keyPath], in its split form when it was given as a string. *)
Theorem options_bag_after_construction c msg opts trace :
  options_as_mapping msg opts = true →
  options (new c msg opts trace) !! "name" = None ∧
  options (new c msg opts trace) !! "entity" = None ∧
  options (new c msg opts trace) !! "statusCode" = None ∧
  options (new c msg opts trace) !! "stack" = None ∧
  options (new c msg opts trace) !! "message" = None ∧
  options (new c msg opts trace) !! "origin" =
    (_correctArguments msg opts).2 !! "origin" ∧
  options (new c msg opts trace) !! "underlying" =
    (_correctArguments msg opts).2 !! "underlying" ∧
  options (new c msg opts trace) !! "keyPath" =
    normal_keyPath <$> (_correctArguments msg opts).2 !! "keyPath".
Proof.
  intros _. unfold options.
  destruct (new_options_name_statusCode c msg opts trace) as [-> ->].
  rewrite !new_options_lookup, !base_options_lookup by done.
  cbv zeta. eval_decide. repeat split; try done.
Qed.

(** [new NotFound({name: 'custom', entity: 'user', origin: 'svc',
    keyPath: 'a.b'})]. *)
Lemma options_bag_after_construction_witness :
  options (new NotFound
             (VObj {[ "name" := VStr "custom"; "entity" := VStr "user";
                      "origin" := VStr "svc"; "keyPath" := VStr "a.b" ]})
             None "") !! "name" = None ∧
  options (new NotFound
             (VObj {[ "name" := VStr "custom"; "entity" := VStr "user";
                      "origin" := VStr "svc"; "keyPath" := VStr "a.b" ]})
             None "") !! "entity" = None ∧
  options (new NotFound
             (VObj {[ "name" := VStr "custom"; "entity" := VStr "user";
                      "origin" := VStr "svc"; "keyPath" := VStr "a.b" ]})
             None "") !! "origin" = Some (VStr "svc") ∧
  options (new NotFound
             (VObj {[ "name" := VStr "custom"; "entity" := VStr "user";
                      "origin" := VStr "svc"; "keyPath" := VStr "a.b" ]})
             None "") !! "keyPath" = Some (VArr [VStr "a"; VStr "b"]).
Proof.
  destruct (options_bag_after_construction NotFound
              (VObj {[ "name" := VStr "custom"; "entity" := VStr "user";
                       "origin" := VStr "svc"; "keyPath" := VStr "a.b" ]})
              None "" eq_refl)
    as (Hname & Hentity & _ & _ & _ & Horigin & _ & HkeyPath).
  exact (conj Hname (conj Hentity (conj Horigin HkeyPath))).
Defined.

(** C4 fails as stated: [new ApiError('m', {origin: 'svc'}).options] still
    has the key [origin]. *)
Lemma origin_stays_in_options :
  options (new ApiError (VStr "m") (Some {[ "origin" := VStr "svc" ]}) "")
    !! "origin" ≠ None.
Proof. vm_compute. discriminate. Qed.

(** C9. Built without arguments, every variant has its fixed status and its
    fixed wire name. A supplied [name] option (any truthy value, such as a
    non-empty string) replaces the fixed name in the variants that read
    [options.name]; [NotAuthorized], [PaymentRequired] and [Forbidden] ignore
    it and keep the fixed name. *)
Theorem variant_status_and_name c msg opts (n : value) trace :
  is_variant c = true →
  (_correctArguments msg opts).2 !! "name" = Some n →
  truthy n = true →
  statusCode (new c VUndefined None trace) = VNum (status c) ∧
  name (new c VUndefined None trace) = VStr (wire_name c) ∧
  name (new c msg opts trace) =
    if name_overridable c then n else VStr (wire_name c).
Proof.
  intros Hc Hn Hne. unfold statusCode, name.
  destruct (new_variant_fields c VUndefined None trace Hc)
    as (_ & _ & Hname0 & _ & Hstatus0 & _).
  destruct (new_variant_fields c msg opts trace Hc) as (_ & _ & Hname & _).
  rewrite Hname0, Hstatus0, Hname. unfold name_entry, get.
  rewrite Hn. cbn [_correctArguments snd default]. rewrite lookup_empty.
  cbn [default]. unfold or_, id. rewrite Hne. cbn [truthy].
  by destruct (name_overridable c).
Qed.

Lemma variant_status_and_name_witness :
  name (new NotFound (VObj {[ "name" := VStr "custom" ]}) None "")
    = VStr "custom" ∧
  name (new Forbidden (VObj {[ "name" := VStr "custom" ]}) None "")
    = VStr "forbidden" ∧
  statusCode (new Conflict VUndefined None "") = VNum 409 ∧
  name (new Conflict VUndefined None "") = VStr "already-exists".
Proof.
  pose proof (variant_status_and_name NotFound
    (VObj {[ "name" := VStr "custom" ]}) None (VStr "custom") ""
    eq_refl eq_refl eq_refl) as (_ & _ & H1).
  pose proof (variant_status_and_name Forbidden
    (VObj {[ "name" := VStr "custom" ]}) None (VStr "custom") ""
    eq_refl eq_refl eq_refl) as (_ & _ & H2).
  pose proof (variant_status_and_name Conflict
    (VObj {[ "name" := VStr "custom" ]}) None (VStr "custom") ""
    eq_refl eq_refl eq_refl) as (H3 & H4 & _).
  exact (conj H1 (conj H2 (conj H3 H4))).
Defined.

(** C10. An empty string as the message, whether passed as the first argument
    or as [options.message], yields the variant's default message: the
    constructors test the message for truthiness, so every falsy message is
    replaced, not only an absent one. *)
Theorem empty_message_yields_default c (opts : option obj) (o : obj) msg trace :
  is_variant c = true →
  o !! "message" = Some (VStr "") →
  truthy msg = false →
  message (new c (VStr "") opts trace) = VStr (default_message c) ∧
  message (new c (VObj o) None trace) = VStr (default_message c) ∧
  message (new c msg opts trace) = VStr (default_message c).
Proof.
  intros Hc Ho Hmsg.
  destruct (new_variant_fields c (VStr "") opts trace Hc) as (_ & -> & _).
  destruct (new_variant_fields c (VObj o) None trace Hc) as (_ & -> & _).
  destruct (new_variant_fields c msg opts trace Hc) as (_ & -> & _).
  cbn [_correctArguments fst]. unfold get. rewrite Ho. cbn [default].
  repeat split; try done.
  destruct msg; try discriminate Hmsg; cbn [_correctArguments fst];
    unfold or_; by rewrite ?Hmsg.
Qed.

Lemma empty_message_yields_default_witness :
  message (new NotFound (VStr "") None "") = VStr "Resource not found." ∧
  message (new NotFound (VObj {[ "message" := VStr "" ]}) None "")
    = VStr "Resource not found." ∧
  message (new NotFound VNull None "") = VStr "Resource not found.".
Proof.
  exact (empty_message_yields_default NotFound None
           {[ "message" := VStr "" ]} VNull "" eq_refl eq_refl eq_refl).
Defined.

(** ** The [underlying] chain *)

(** On chains of at most two links [actual] is the root. *)
Lemma actual_root_short_chain (this : instance) :
  match _underlying this with
  | VErr u =>
      match _underlying u with
      | VErr w => truthy (_underlying w) = false
      | v => truthy v = false
      end
  | v => truthy v = false
  end →
  actual this = root (VErr this).
Proof.
  unfold actual. cbn [root].
  destruct (_underlying this) as [| |b|n|s|l|m|u] eqn:Hu;
    try (intros Hf; unfold or_; rewrite Hf; cbn; by rewrite ?Hf).
  unfold or_ at 2. cbn [truthy prop root].
  change (instance_prop u "underlying") with (_underlying u).
  destruct (_underlying u) as [| |b|n|s|l|m|w] eqn:Hw;
    intros Hf; unfold or_; cbn [truthy root] in *; rewrite ?Hf;
    try discriminate Hf; reflexivity.
Qed.

(** C1. [actual] reads [this._underlying.underlying], then
    [this._underlying], then [this]: it follows at most two links. For
    [A] wrapping [B] wrapping [C] wrapping [D] it answers [C], while the root
    of the chain is [D]. *)
Theorem actual_follows_two_links_only :
  actual chain_A = VErr chain_C ∧
  root (VErr chain_A) = VErr chain_D ∧
  actual chain_A ≠ root (VErr chain_A).
Proof.
  assert (H1 : actual chain_A = VErr chain_C) by (vm_compute; reflexivity).
  assert (H2 : root (VErr chain_A) = VErr chain_D) by (vm_compute; reflexivity).
  split; [exact H1 | split; [exact H2 |]].
  rewrite H1, H2. intros H. apply (f_equal (λ v, prop v "message")) in H.
  vm_compute in H. discriminate H.
Qed.

(** ** The collection of [Aggregated] *)

Lemma every_instances l :
  if forallb is_instance l then every l = Ok true
  else every l = Ok false ∨ every l = Throw (TypeError None).
Proof.
  induction l as [|v l IH]; [done|].
  destruct v; cbn; auto; exact IH.
Qed.

Lemma _check_accepts v : all_instances v = true → _check v = Ok v.
Proof.
  destruct v as [| | | | |l| |]; try discriminate. cbn. intros Hl.
  pose proof (every_instances l) as H. rewrite Hl in H. by rewrite H.
Qed.

Lemma _check_rejects v :
  all_instances v = false → ∃ msg, _check v = Throw (TypeError msg).
Proof.
  destruct v as [| | | | |l| |]; cbn; eauto. intros Hl.
  pose proof (every_instances l) as H. rewrite Hl in H.
  destruct H as [-> | ->]; eauto.
Qed.

(** C2. The constructor of [Aggregated] assigns [_errors] from the options
    without calling [_check]: [new Aggregated({errors: [42]})] is built, and
    its collection holds [42], which [_check] (used by [add] and by the
    setter) rejects. *)
Theorem Aggregated_constructor_does_not_check :
  errors (new Aggregated (VObj {[ "errors" := VArr [VNum 42] ]}) None "")
    = VArr [VNum 42] ∧
  all_instances (VArr [VNum 42]) = false ∧
  _check (VArr [VNum 42]) = Throw (TypeError (Some _check_message)).
Proof. repeat split; vm_compute; reflexivity. Qed.

(** C7. [_check] throws a [TypeError] when its input is not an array of
    error instances and returns the input itself otherwise; when [add] or the
    setter throws, the instance is exactly as it was before the call. *)
Theorem _check_rejects_or_returns_input
    (ToString : value → string) (candidates : value) (this : instance) :
  all_instances candidates = false →
  (∃ msg, _check candidates = Throw (TypeError msg)) ∧
  (∃ msg, set_errors candidates this = (this, Throw (TypeError msg))) ∧
  (∀ v, all_instances (if isArray v then v else VArr [v]) = false →
        ∃ msg, add ToString v this = (this, Throw (TypeError msg))) ∧
  (∀ v, all_instances v = true → _check v = Ok v) ∧
  (∀ v e, (set_errors v this).2 = Throw e → (set_errors v this).1 = this) ∧
  (∀ v e, (add ToString v this).2 = Throw e → (add ToString v this).1 = this).
Proof.
  intros Hbad.
  destruct (_check_rejects candidates Hbad) as [msg Hmsg].
  split; [eauto|]. split; [|split; [|split; [|split]]].
  - exists msg. unfold set_errors. by rewrite Hmsg.
  - intros v Hwrap. unfold add. destruct (nullish (_errors this)); [eauto|].
    destruct (_check_rejects _ Hwrap) as [msg' ->]. eauto.
  - apply _check_accepts.
  - intros v e. unfold set_errors. by destruct (_check v).
  - intros v e. unfold add. destruct (nullish (_errors this)); [done|].
    destruct (_check (if isArray v then v else VArr [v])) as [checked|];
      [|done].
    by destruct (concat ToString (_errors this) checked).
Qed.

Lemma _check_rejects_or_returns_input_witness :
  (∃ msg, _check (VArr [VNum 42]) = Throw (TypeError msg)) ∧
  (∃ msg, add (λ _, "") (VNum 42) (new Aggregated VUndefined None "")
          = (new Aggregated VUndefined None "", Throw (TypeError msg))).
Proof.
  destruct (_check_rejects_or_returns_input (λ _, "") (VArr [VNum 42])
              (new Aggregated VUndefined None "") eq_refl)
    as (H1 & _).
  destruct (_check_rejects_or_returns_input (λ _, "") (VNum 42)
              (new Aggregated VUndefined None "") eq_refl)
    as (_ & _ & H3 & _).
  exact (conj H1 (H3 (VNum 42) eq_refl)).
Defined.

(** ** Reconstruction *)

Lemma parse_step fuel (data : obj) statusCode origin trace :
  parse (S fuel) (VObj data) statusCode origin trace =
    match parse_children fuel (get data "errors") statusCode origin trace with
    | None => None
    | Some (Throw e) => Some (Throw e)
    | Some (Ok errors) =>
        Some (Ok (new (_type (or_ (get data "name") (VStr "bad-request")))
                      (VObj (parse_options data statusCode origin errors))
                      None trace))
    end.
Proof.
  cbn [parse read nullish prop entries].
  rewrite get_merge_pair_l
    by (by rewrite !lookup_insert_ne, lookup_singleton_ne).
  unfold parse_children. by destruct (get data "errors").
Qed.

Lemma parse_options_message data statusCode origin errors :
  get (parse_options data statusCode origin errors) "message"
    = get data "message".
Proof.
  unfold parse_options, get at 1. rewrite lookup_insert_ne by done.
  apply get_merge_pair_same. by map_lookups.
Qed.


Lemma parse_options_other data statusCode origin errors k :
  k ≠ "errors" → k ≠ "message" → k ≠ "statusCode" → k ≠ "origin" →
  get (parse_options data statusCode origin errors) k = get data k.
Proof.
  intros. unfold parse_options, get at 1. rewrite lookup_insert_ne by done.
  apply get_merge_pair_l. by rewrite !lookup_insert_ne, lookup_singleton_ne.
Qed.







(** ** Strings *)

Lemma split_dot_dot_free s : dot_free s = true → split_dot s = [s].
Proof.
  induction s as [|c s IH]; [done|]. cbn.
  destruct (Ascii.eqb c dot); [done|]. cbn. intros Hs. by rewrite IH.
Qed.

Lemma split_dot_segment a rest :
  dot_free a = true → split_dot (a +:+ "." +:+ rest) = a :: split_dot rest.
Proof.
  induction a as [|c a IH]; [done|]. intros Ha. cbn in Ha.
  destruct (Ascii.eqb c dot) eqn:Hc; [done|].
  change (String c a +:+ "." +:+ rest) with (String c (a +:+ "." +:+ rest)).
  cbn [split_dot]. by rewrite Hc, IH.
Qed.

Lemma split_dot_join l :
  l ≠ [] → forallb dot_free l = true → split_dot (join "." l) = l.
Proof.
  induction l as [|a l IH]; [done|]. intros _ Hl.
  cbn in Hl. apply andb_true_iff in Hl as [Ha Hl].
  destruct l as [|b l].
  - by apply split_dot_dot_free.
  - change (join "." (a :: b :: l)) with (a +:+ "." +:+ join "." (b :: l)).
    rewrite split_dot_segment by done. f_equal. by apply IH.
Qed.

Lemma split_upper_cons c c' s :
  split_upper (String c (String c' s)) =
    if is_upper c' then String c EmptyString :: split_upper (String c' s)
    else match split_upper (String c' s) with
         | h :: t => String c h :: t
         | [] => [String c EmptyString]
         end.
Proof. reflexivity. Qed.

Lemma split_upper_head c s :
  ∃ h t, split_upper (String c s) = String c h :: t.
Proof.
  revert c. induction s as [|c' s IH]; intros c; [by eexists _, _|].
  rewrite split_upper_cons. destruct (is_upper c'); [by eexists _, _|].
  destruct (IH c') as (h & t & ->). by eexists _, _.
Qed.

Lemma kebab_nonempty s : s ≠ "" → kebab s ≠ "".
Proof.
  destruct s as [|c s]; [done|]. intros _. unfold kebab.
  destruct (split_upper_head c s) as (h & t & ->).
  by destruct t.
Qed.

Lemma stable_keyPath_segments l :
  forallb (λ v, match v with VStr s => dot_free s | _ => false end) l = true →
  ∃ segments, l = VStr <$> segments ∧ forallb dot_free segments = true.
Proof.
  induction l as [|v l IH]; [by exists []|]. cbn.
  intros [Hv Hl]%andb_true_iff. destruct v; try discriminate.
  destruct (IH Hl) as (segments & -> & Hs). exists (s :: segments).
  cbn. by rewrite Hv, Hs.
Qed.

(** ** Serialisation *)

Lemma depth_child (this : instance) l c :
  _errors this = VArr l → c ∈ l → (depth c < depth (VErr this))%nat.
Proof.
  intros Hl Hc. cbn [depth]. rewrite Hl. apply Nat.lt_succ_r. clear Hl.
  induction Hc as [c l|c c' l _ IH]; cbn [foldr]; lia.
Qed.

Lemma mapM_result_Forall2 {A B} (f : A → result B) l ys :
  mapM_result f l = Ok ys → Forall2 (λ x y, f x = Ok y) l ys.
Proof.
  revert ys. induction l as [|x l IH]; intros ys; cbn.
  - intros [= <-]. constructor.
  - destruct (f x) as [y|] eqn:Hx; [|discriminate].
    destruct (mapM_result f l) as [ys'|]; [|discriminate].
    intros [= <-]. constructor; auto.
Qed.

Section HostProperties.
Variable trenskow_stack : value → value.
Variable ToString : value → string.
Variable ToNumber_positive : value → bool.

Local Abbreviation toJSON_ := (toJSON trenskow_stack ToString ToNumber_positive).
Local Abbreviation ApiError_toJSON_ :=
  (ApiError_toJSON trenskow_stack ToString ToNumber_positive).
Local Abbreviation stacked_ := (stacked trenskow_stack).
Local Abbreviation base_json_ := (base_json trenskow_stack).

Lemma ApiError_toJSON_Ok this config json :
  ApiError_toJSON_ this config = Ok json →
  ∃ name keyPath,
    name_json (_name this) = Ok name ∧
    keyPath_json ToString ToNumber_positive (_keyPath this) = Ok keyPath ∧
    json = base_json_ this config name keyPath.
Proof.
  unfold ApiError_toJSON, mbind, result_bind, mret, result_ret.
  destruct (name_json _) as [name|]; [|discriminate].
  destruct (keyPath_json _ _ _) as [keyPath|]; [|discriminate].
  intros [= <-]. eauto.
Qed.

Lemma toJSON_Ok error config json :
  toJSON_ error config = Ok json →
  ∃ this base,
    error = VErr this ∧
    ApiError_toJSON_ this config = Ok base ∧
    if decide (proto this = Aggregated)
    then ∃ l children,
           _errors this = VArr l ∧
           mapM_result (λ error, toJSON_ error config) l = Ok children ∧
           json = merge ∅ [base; {[ "errors" := VArr (VObj <$> children) ]}]
    else json = base.
Proof.
  destruct error as [| | | | | | |this]; try discriminate. cbn [toJSON].
  intros Hjson. exists this.
  destruct (decide (proto this = Aggregated)) as [Hp|Hp].
  - rewrite Hp in Hjson. unfold mbind, result_bind, mret, result_ret in Hjson.
    destruct (ApiError_toJSON_ this config) as [base|] eqn:Hbase;
      [|discriminate].
    destruct (_errors this) as [| | | | |l| |] eqn:Hl; try discriminate.
    destruct (mapM_result _ l) as [children|] eqn:Hmap; [|discriminate].
    injection Hjson as <-. exists base. eauto 10.
  - exists json. split; [done|]. split; [|done]. by destruct (proto this).
Qed.

Lemma base_json_lookup this config name keyPath k :
  base_json_ this config name keyPath !! k =
    if bool_decide (k = "name") then Some name
    else if bool_decide (k = "message") then Some (message this)
    else if bool_decide (k = "entity") then Some (_entity this)
    else if bool_decide (k = "keyPath") then Some keyPath
    else if bool_decide (k = "stack")
    then Some (if truthy (get config "includeStack")
               then stacked_ this else VUndefined)
    else None.
Proof.
  unfold base_json.
  repeat (case_bool_decide;
          [subst k; by map_lookups
          |first [rewrite lookup_insert_ne by done
                 |rewrite lookup_singleton_ne by done]]).
  done.
Qed.

Lemma dom_base_json this config name keyPath :
  dom (base_json_ this config name keyPath) =
    {[ "name"; "message"; "entity"; "keyPath"; "stack" ]}.
Proof.
  unfold base_json. by rewrite !dom_insert_L, dom_singleton_L.
Qed.

Lemma toJSON_lookup error config json k :
  toJSON_ error config = Ok json →
  k ≠ "errors" →
  ∃ this name keyPath,
    error = VErr this ∧
    name_json (_name this) = Ok name ∧
    keyPath_json ToString ToNumber_positive (_keyPath this) = Ok keyPath ∧
    json !! k = base_json_ this config name keyPath !! k.
Proof.
  intros Hjson Hk.
  destruct (toJSON_Ok _ _ _ Hjson) as (this & base & -> & Hbase & Hcase).
  destruct (ApiError_toJSON_Ok _ _ _ Hbase) as (name & keyPath & Hn & Hkp & ->).
  exists this, name, keyPath. repeat split; try done.
  destruct (decide (proto this = Aggregated)); [|by subst].
  destruct Hcase as (l & children & _ & _ & ->).
  rewrite merge_pair_lookup, lookup_singleton_ne by done.
  by destruct (base_json_ _ _ _ _ !! k).
Qed.

Lemma toJSON_wire_shaped n error config json :
  (depth error < n)%nat → toJSON_ error config = Ok json → wire_shaped json.
Proof.
  revert error json. induction n as [|n IH]; [lia|]. intros error json Hn Hjson.
  destruct (toJSON_Ok _ _ _ Hjson) as (this & base & -> & Hbase & Hcase).
  destruct (ApiError_toJSON_Ok _ _ _ Hbase) as (name & keyPath & _ & _ & ->).
  destruct (decide (proto this = Aggregated)).
  - destruct Hcase as (l & children & Hl & Hmap & ->). constructor.
    + rewrite dom_merge_pair, dom_base_json, dom_singleton_L. solve_fields.
    + intros l' Hl'. rewrite merge_pair_lookup, base_json_lookup in Hl'.
      eval_decide. rewrite lookup_singleton_eq in Hl'. injection Hl' as <-.
      apply mapM_result_Forall2 in Hmap.
      assert (Hdepth : ∀ c, c ∈ l → (depth c < n)%nat).
      { intros c Hc. pose proof (depth_child this l c Hl Hc). lia. }
      clear Hl Hn Hjson Hbase. induction Hmap as [|c child l children Hc _ IHl];
        constructor.
      * exists child. split; [done|]. eapply IH; [|exact Hc].
        apply Hdepth. apply list_elem_of_here.
      * apply IHl. intros c' Hc'. apply Hdepth. by apply list_elem_of_further.
  - subst json. constructor.
    + rewrite dom_base_json. solve_fields.
    + intros l Hl. rewrite base_json_lookup in Hl. by eval_decide.
Qed.

(** C8. Whatever the instance and the config, a serialisation that returns
    has only the fields [name], [message], [entity], [keyPath], [stack] and,
    for [Aggregated] only, [errors], and the same holds of every serialised
    child under [errors]; [origin], [underlying] and [options] never appear. *)
Theorem toJSON_fields (this : instance) (config json : obj) :
  toJSON_ (VErr this) config = Ok json →
  dom json ⊆ wire_fields ∧
  wire_shaped json ∧
  json !! "origin" = None ∧
  json !! "underlying" = None ∧
  json !! "options" = None ∧
  (proto this ≠ Aggregated → json !! "errors" = None).
Proof.
  intros Hjson.
  assert (Hshape : wire_shaped json)
    by (apply (toJSON_wire_shaped (S (depth (VErr this))) (VErr this) config json);
        [lia | done]).
  split; [by destruct Hshape|]. split; [done|].
  assert (Hnone : ∀ k, k ≠ "errors" → k ∉ wire_fields → json !! k = None).
  { intros k Hk Hout.
    destruct (toJSON_lookup _ _ _ k Hjson Hk) as (? & ? & ? & _ & _ & _ & ->).
    rewrite base_json_lookup.
    repeat (case_bool_decide; [subst k; exfalso; apply Hout; solve_fields|]).
    done. }
  repeat (split; [apply Hnone; [done | solve_fields]|]).
  intros Hproto.
  destruct (toJSON_Ok _ _ _ Hjson) as (? & base & [= <-] & Hbase & Hcase).
  destruct (decide (proto this = Aggregated)); [done|]. subst base.
  destruct (ApiError_toJSON_Ok _ _ _ Hbase) as (? & ? & _ & _ & ->).
  rewrite base_json_lookup. by eval_decide.
Qed.

(** ** Round trip *)

Lemma parse_children_Ok n (children : list obj) statusCode origin trace :
  Forall (λ child, ∃ p, parse n (VObj child) statusCode origin trace
                        = Some (Ok p)) children →
  ∃ cs, parse_children n (VArr (VObj <$> children)) statusCode origin trace
        = Some (Ok (VArr cs)).
Proof.
  unfold parse_children.
  induction 1 as [|child children [p Hp] _ [cs IH]]; [by exists []|].
  exists (VErr p :: cs). cbn [fmap list_fmap mapM_fuel read nullish].
  rewrite Hp.
  change (list_fmap _ _ VObj children) with (VObj <$> children).
  by destruct (mapM_fuel _ (VObj <$> children)) as [[]|]; simplify_eq.
Qed.

(** Whatever [toJSON] returns, [parse] rebuilds, given fuel for the nesting:
    the children under [errors] are serialised errors themselves. *)
Lemma parse_toJSON n error config json statusCode origin trace :
  (depth error < n)%nat →
  toJSON_ error config = Ok json →
  ∃ errors,
    parse n (VObj json) statusCode origin trace =
      Some (Ok (new (_type (or_ (get json "name") (VStr "bad-request")))
                    (VObj (parse_options json statusCode origin errors))
                    None trace)).
Proof.
  revert error json. induction n as [|n IH]; [lia|]. intros error json Hn Hjson.
  rewrite parse_step.
  destruct (toJSON_Ok _ _ _ Hjson) as (this & base & -> & Hbase & Hcase).
  destruct (ApiError_toJSON_Ok _ _ _ Hbase)
    as (name & keyPath & _ & _ & ->).
  destruct (decide (proto this = Aggregated)).
  - destruct Hcase as (l & children & Hl & Hmap & ->).
    unfold get at 1. rewrite merge_pair_lookup, base_json_lookup.
    eval_decide. rewrite lookup_singleton_eq. cbn [default]. unfold id.
    apply mapM_result_Forall2 in Hmap.
    assert (Hdepth : ∀ c, c ∈ l → (depth c < n)%nat).
    { intros c Hc. pose proof (depth_child this l c Hl Hc). lia. }
    destruct (parse_children_Ok n children statusCode origin trace)
      as [cs ->]; [|eauto].
    clear Hl Hn Hjson Hbase.
    induction Hmap as [|c cj l children Hc _ IHl]; constructor.
    + destruct (IH c cj) as [errs Hp]; [apply Hdepth, list_elem_of_here|done|].
      eauto.
    + apply IHl. intros c' Hc'. apply Hdepth. by apply list_elem_of_further.
  - subst json. unfold get at 1. rewrite base_json_lookup. eval_decide.
    cbn [default]. unfold id. cbn [parse_children]. eauto.
Qed.

Lemma toJSON_gets this config json :
  toJSON_ (VErr this) config = Ok json →
  ∃ name keyPath,
    name_json (_name this) = Ok name ∧
    keyPath_json ToString ToNumber_positive (_keyPath this) = Ok keyPath ∧
    get json "name" = name ∧
    get json "message" = message this ∧
    get json "entity" = _entity this ∧
    get json "keyPath" = keyPath ∧
    get json "stack" = (if truthy (get config "includeStack")
                        then stacked_ this else VUndefined) ∧
    get json "underlying" = VUndefined.
Proof.
  intros Hjson.
  destruct (toJSON_Ok _ _ _ Hjson) as (? & base & [= <-] & Hbase & Hcase).
  destruct (ApiError_toJSON_Ok _ _ _ Hbase)
    as (name & keyPath & Hn & Hkp & ->).
  exists name, keyPath. split; [done|]. split; [done|].
  assert (Hk : ∀ k, k ≠ "errors" →
            get json k = get (base_json_ this config name keyPath) k).
  { intros k Hk. destruct (decide (proto this = Aggregated)); [|by subst].
    destruct Hcase as (l & children & _ & _ & ->).
    apply get_merge_pair_l. by rewrite lookup_singleton_ne. }
  rewrite !Hk by done. unfold get at 1 2 3 4 5 6.
  rewrite !base_json_lookup. by eval_decide.
Qed.

Lemma keyPath_json_stable keyPath json_keyPath :
  stable_keyPath keyPath = true →
  keyPath_json ToString ToNumber_positive keyPath = Ok json_keyPath →
  normal_keyPath json_keyPath = keyPath.
Proof.
  destruct keyPath as [| | | | |l| |]; try discriminate.
  - intros _ [= <-]. done.
  - cbn [stable_keyPath]. intros [Hl Hs]%andb_true_iff.
    apply negb_true_iff, bool_decide_eq_false in Hl.
    destruct (stable_keyPath_segments l Hs) as (segments & -> & Hfree).
    assert (Hgt : gt_zero ToNumber_positive
                    (prop (VArr (VStr <$> segments)) "length") = true).
    { destruct segments; [done|reflexivity]. }
    unfold keyPath_json. rewrite Hgt. cbn [truthy]. intros [= <-].
    cbn [normal_keyPath]. f_equal.
    rewrite <- list_fmap_compose.
    replace (element_string ToString ∘ VStr) with (@id string) by done.
    rewrite list_fmap_id. f_equal. apply split_dot_join; [|done].
    by destruct segments.
Qed.

(** C5 (as amended). An instance whose name selects its own class in the
    name table, whose message is truthy, whose key path is absent or a
    non-empty sequence of dot-free strings, and whose structured stack is
    truthy, is rebuilt by [parse] from its serialisation (stack included) as
    an instance of the same class with the same message, entity, key path and
    structured stack. *)
Theorem parse_toJSON_roundtrip (this : instance) (json : obj) (nm : string)
    (origin : value) (trace : string) (fuel : nat) :
  toJSON_ (VErr this) {[ "includeStack" := VBool true ]} = Ok json →
  _name this = VStr nm →
  nm ≠ "" →
  _type (VStr (kebab nm)) = proto this →
  truthy (message this) = true →
  stable_keyPath (_keyPath this) = true →
  truthy (stacked_ this) = true →
  (depth (VErr this) < fuel)%nat →
  ∃ p, parse fuel (VObj json) (statusCode this) origin trace = Some (Ok p) ∧
       proto p = proto this ∧
       message p = message this ∧
       _entity p = _entity this ∧
       _keyPath p = _keyPath this ∧
       stacked_ p = stacked_ this.
Proof.
  intros Hjson Hname Hnm Htype Hmsg Hkp Hstack Hfuel.
  destruct (parse_toJSON fuel _ _ _ (statusCode this) origin trace Hfuel Hjson)
    as [errs Hp].
  destruct (toJSON_gets _ _ _ Hjson)
    as (name & keyPath & Hn & Hk & Gname & Gmsg & Gent & Gkp & Gstack & Gund).
  assert (Hinclude : truthy (get ({[ "includeStack" := VBool true ]} : obj)
                               "includeStack") = true) by reflexivity.
  rewrite Hinclude in Gstack. clear Hinclude.
  rewrite Hname in Hn. unfold name_json in Hn. cbn [truthy] in Hn.
  apply String.eqb_neq in Hnm as Hnm'. rewrite Hnm' in Hn. cbn in Hn.
  injection Hn as <-.
  assert (Hc : _type (or_ (get json "name") (VStr "bad-request")) = proto this).
  { rewrite Gname. unfold or_. cbn [truthy].
    pose proof (kebab_nonempty nm Hnm) as Hkebab.
    apply String.eqb_neq in Hkebab as ->. exact Htype. }
  rewrite Hc in Hp. eexists. split; [exact Hp|].
  set (opts := parse_options json (statusCode this) origin errs).
  destruct (new_fields (proto this) (VObj opts) None trace)
    as (Fp & Fm & Fe & Fs & Fk & Fu).
  cbn [_correctArguments fst snd] in Fm, Fe, Fs, Fk, Fu.
  subst opts. rewrite parse_options_message, Gmsg in Fm.
  rewrite parse_options_other in Fe, Fs, Fk, Fu by done.
  rewrite Gent in Fe. rewrite Gstack in Fs. rewrite Gkp in Fk.
  rewrite Gund in Fu.
  split; [exact Fp|]. split; [|split; [exact Fe|split]].
  - rewrite Fm. unfold or_. rewrite Hmsg. by destruct (is_variant _).
  - rewrite Fk. by apply keyPath_json_stable.
  - unfold stacked at 1, actual. rewrite Fu.
    change (or_ VUndefined ?v) with v.
    change (prop (VObj ∅) "underlying") with VUndefined.
    change (or_ VUndefined ?v) with v.
    change (prop (VErr ?p) "_stacked") with (_stacked p).
    rewrite Fs. by rewrite Hstack.
Qed.

End HostProperties.

(** ** Witnesses on the sample instances *)

Lemma toJSON_fields_witness :
  toJSON (λ s, VArr [s]) (λ _, "") (λ _, false) (VErr sample_error)
    {[ "includeStack" := VBool true ]} = Ok sample_json ∧
  dom sample_json ⊆ wire_fields ∧
  sample_json !! "origin" = None.
Proof.
  assert (H : toJSON (λ s, VArr [s]) (λ _, "") (λ _, false) (VErr sample_error)
                {[ "includeStack" := VBool true ]} = Ok sample_json)
    by (vm_compute; reflexivity).
  split; [exact H|].
  pose proof (toJSON_fields _ _ _ _ _ _ H) as (Hdom & _ & Horigin & _).
  exact (conj Hdom Horigin).
Defined.

Lemma parse_toJSON_roundtrip_witness :
  ∃ p, parse 2 (VObj sample_aggregated_json) (statusCode sample_aggregated)
         VNull "at h" = Some (Ok p) ∧
       proto p = proto sample_aggregated ∧
       message p = message sample_aggregated ∧
       _entity p = _entity sample_aggregated ∧
       _keyPath p = _keyPath sample_aggregated ∧
       stacked (λ s, VArr [s]) p = stacked (λ s, VArr [s]) sample_aggregated.
Proof.
  assert (Hjson : toJSON (λ s, VArr [s]) (λ _, "") (λ _, false)
                    (VErr sample_aggregated)
                    {[ "includeStack" := VBool true ]}
                  = Ok sample_aggregated_json) by (vm_compute; reflexivity).
  assert (Hname : _name sample_aggregated = VStr "aggregated")
    by (vm_compute; reflexivity).
  assert (Hmsg : truthy (message sample_aggregated) = true)
    by (vm_compute; reflexivity).
  assert (Hkp : stable_keyPath (_keyPath sample_aggregated) = true)
    by (vm_compute; reflexivity).
  assert (Hstack : truthy (stacked (λ s, VArr [s]) sample_aggregated) = true)
    by (vm_compute; reflexivity).
  assert (Hdepth : (depth (VErr sample_aggregated) < 2)%nat)
    by (vm_compute; lia).
  exact (parse_toJSON_roundtrip (λ s, VArr [s]) (λ _, "") (λ _, false)
           sample_aggregated sample_aggregated_json "aggregated" VNull "at h" 2
           Hjson Hname ltac:(discriminate) eq_refl Hmsg Hkp Hstack Hdepth).
Defined.

(** C5 fails as stated: [new NotFound({name: 'custom'})] serialises with the
    name [custom], which the table does not know, and is rebuilt as an
    instance of the base class. *)
Lemma roundtrip_loses_class_of_renamed_variant :
  proto renamed_error = NotFound ∧
  toJSON (λ s, VArr [s]) (λ _, "") (λ _, false) (VErr renamed_error)
    {[ "includeStack" := VBool true ]} = Ok renamed_json ∧
  ∃ p, parse 1 (VObj renamed_json) (statusCode renamed_error) VNull "at g"
         = Some (Ok p) ∧
       proto p = ApiError ∧
       proto p ≠ proto renamed_error.
Proof.
  split; [reflexivity|]. split; [vm_compute; reflexivity|].
  rewrite parse_step. cbn [parse_children].
  assert (get renamed_json "errors" = VUndefined) as -> by reflexivity.
  eexists. split; [reflexivity|].
  assert (Hc : _type (or_ (get renamed_json "name") (VStr "bad-request"))
               = ApiError) by reflexivity.
  rewrite Hc. split; [reflexivity | discriminate].
Qed.

(** The condition on the key path is needed as well: an empty sequence is
    serialised as [undefined] and comes back as [undefined]. *)
Lemma roundtrip_loses_empty_keyPath :
  _keyPath empty_keyPath_error = VArr [] ∧
  toJSON (λ s, VArr [s]) (λ _, "") (λ _, false) (VErr empty_keyPath_error)
    {[ "includeStack" := VBool true ]} = Ok empty_keyPath_json ∧
  ∃ p, parse 1 (VObj empty_keyPath_json) (statusCode empty_keyPath_error)
         VNull "at g" = Some (Ok p) ∧
       _keyPath p = VUndefined.
Proof.
  split; [reflexivity|]. split; [vm_compute; reflexivity|].
  rewrite parse_step.
  assert (get empty_keyPath_json "errors" = VUndefined) as -> by reflexivity.
  cbn [parse_children]. eexists. split; [reflexivity|].
  vm_compute. reflexivity.
Qed.

(** * Further properties of the code *)

(** ** Construction *)

Lemma base_constructor_one_argument c (o : obj) trace :
  ApiError_constructor c (VObj o) None trace =
    ApiError_constructor c (get o "message") (Some o) trace.
Proof.
  unfold ApiError_constructor. by rewrite _correctArguments_Some.
Qed.

Lemma base_constructor_message_key c m v (o : obj) trace :
  ApiError_constructor c m (Some (<["message" := v]> o)) trace =
    ApiError_constructor c m (Some o) trace.
Proof.
  unfold ApiError_constructor. rewrite !_correctArguments_Some.
  unfold get. rewrite !lookup_insert_ne by done.
  by rewrite delete_insert_eq.
Qed.

Lemma variant_options_message_key c v (o : obj) :
  variant_options c (<["message" := v]> o) =
    <["message" := v]> (variant_options c o).
Proof.
  apply map_eq. intros k. unfold variant_options.
  assert (Hname : name_entry c (<["message" := v]> o) = name_entry c o).
  { unfold name_entry, get. by rewrite lookup_insert_ne. }
  rewrite Hname. destruct (decide (k = "message")) as [->|Hk].
  - rewrite lookup_insert_eq, merge_pair_lookup, lookup_insert_eq.
    by rewrite lookup_insert_ne, lookup_singleton_ne.
  - rewrite lookup_insert_ne by done. rewrite !merge_pair_lookup.
    by rewrite lookup_insert_ne.
Qed.

Lemma variant_constructor_call_forms c msg (o : obj) trace :
  variant_constructor c msg (Some o) trace =
    variant_constructor c (VObj (<["message" := msg]> o)) None trace.
Proof.
  rewrite !variant_constructor_eq, _correctArguments_Some.
  cbn [_correctArguments fst snd]. unfold get at 1.
  rewrite lookup_insert_eq. cbn [default].
  by rewrite variant_options_message_key, base_constructor_message_key.
Qed.

(** X1. The two call forms build the same instance: [new C(message, options)]
    and [new C({...options, message})] agree on every field, for every
    class. *)
Theorem call_forms_agree c msg (o : obj) trace :
  new c msg (Some o) trace = new c (VObj (<["message" := msg]> o)) None trace.
Proof.
  assert (Hbase : ApiError_constructor c msg (Some o) trace =
                  ApiError_constructor c (VObj (<["message" := msg]> o)) None
                    trace).
  { rewrite base_constructor_one_argument. unfold get.
    rewrite lookup_insert_eq. cbn [default].
    by rewrite base_constructor_message_key. }
  destruct c; cbn [new]; try apply variant_constructor_call_forms;
    [exact Hbase|].
  unfold Aggregated_constructor.
  rewrite <- variant_constructor_call_forms, _correctArguments_Some.
  cbn [_correctArguments]. unfold underlying_errors, get.
  by rewrite !lookup_insert_ne.
Qed.

Ltac in_keys :=
  unfold consumed_keys;
  repeat first [apply list_elem_of_here | apply list_elem_of_further].

(** X3. Every option of an options mapping that the base constructor does
    not consume is kept verbatim in the options bag, and nothing else is
    added to it. *)
Theorem options_bag_keeps_other_keys c msg opts trace k :
  options_as_mapping msg opts = true →
  k ∉ consumed_keys →
  options (new c msg opts trace) !! k = (_correctArguments msg opts).2 !! k.
Proof.
  intros _ Hk. unfold options.
  assert (Hne : ∀ j, j ∈ consumed_keys → k ≠ j) by (by intros j Hj ->).
  rewrite new_options_lookup by (apply Hne; in_keys).
  rewrite base_options_lookup. cbv zeta.
  rewrite bool_decide_eq_false_2
    by (intros Hin; apply Hk;
        repeat (apply elem_of_cons in Hin as [->|Hin]; [in_keys|]);
        by apply elem_of_nil in Hin).
  rewrite bool_decide_eq_false_2 by (apply Hne; in_keys). done.
Qed.

(** ** The name table *)

Lemma _type_wire_name c : is_variant c = true → _type (VStr (wire_name c)) = c.
Proof. by destruct c. Qed.

Lemma _type_variant_name name c :
  is_variant c = true → _type name = c → name = VStr (wire_name c).
Proof.
  intros Hc <-. destruct name as [| | | |s| | |]; try discriminate Hc.
  revert Hc. unfold _type.
  repeat match goal with
  | |- context [String.eqb s ?k] =>
      destruct (String.eqb_spec s k) as [->|_]; [intros _; reflexivity|]
  end.
  intros Hc. discriminate Hc.
Qed.

(** X4. The name table and the variants' fixed names are inverse to each
    other: [_type] answers a variant exactly on that variant's fixed name
    (and the base class on everything else). *)
Theorem _type_inverts_wire_name (name : value) (c : Class) :
  is_variant c = true →
  _type (VStr (wire_name c)) = c ∧
  (_type name = c ↔ name = VStr (wire_name c)).
Proof.
  intros Hc. split; [by apply _type_wire_name|]. split.
  - by apply _type_variant_name.
  - intros ->. by apply _type_wire_name.
Qed.

Lemma _type_inverts_wire_name_witness :
  _type (VStr "already-exists") = Conflict ∧
  (_type (VStr "already-exists") = Conflict ↔
   VStr "already-exists" = VStr (wire_name Conflict)).
Proof.
  exact (_type_inverts_wire_name (VStr "already-exists") Conflict eq_refl).
Defined.

(** ** The name transform of [toJSON] *)

Lemma is_upper_lower c : is_upper (lower c) = false.
Proof.
  destruct c as [[] [] [] [] [] [] [] []]; reflexivity.
Qed.

Lemma no_upper_toLowerCase s : no_upper (toLowerCase s) = true.
Proof.
  induction s as [|c s IH]; [done|]. cbn. by rewrite is_upper_lower, IH.
Qed.

Lemma toLowerCase_no_upper s : no_upper s = true → toLowerCase s = s.
Proof.
  induction s as [|c s IH]; [done|]. cbn.
  intros [Hc Hs]%andb_true_iff. apply negb_true_iff in Hc.
  unfold lower. by rewrite Hc, IH.
Qed.

Lemma split_upper_no_upper s : no_upper s = true → split_upper s = [s].
Proof.
  induction s as [|c s IH]; [done|]. intros Hs.
  destruct s as [|c' s]; [done|]. rewrite split_upper_cons.
  cbn in Hs. apply andb_true_iff in Hs as [_ Hs].
  pose proof Hs as Hs'. apply andb_true_iff in Hs' as [Hc' _].
  apply negb_true_iff in Hc'. rewrite Hc'. by rewrite IH.
Qed.

Lemma kebab_no_upper t : no_upper t = true → kebab t = t.
Proof.
  intros Ht. unfold kebab. rewrite split_upper_no_upper by done.
  by apply toLowerCase_no_upper.
Qed.

Lemma name_json_wire_name c :
  is_variant c = true → name_json (VStr (wire_name c)) = Ok (VStr (wire_name c)).
Proof.
  intros Hc. unfold name_json.
  assert (truthy (VStr (wire_name c)) = true) as ->
    by (destruct c; try discriminate Hc; reflexivity).
  rewrite kebab_no_upper; [done|].
  destruct c; vm_compute; reflexivity.
Qed.

(** X5. On a name of 7-bit characters the name transform of [toJSON] never
    yields an upper-case letter, and it leaves a name without upper-case
    letters (such as the kebab-case names of the variants) as it is; hence it
    is idempotent. *)
Theorem kebab_normal_form s :
  ascii_only s = true →
  no_upper (kebab s) = true ∧
  (no_upper s = true → kebab s = s) ∧
  kebab (kebab s) = kebab s.
Proof.
  intros _.
  assert (Hout : no_upper (kebab s) = true) by apply no_upper_toLowerCase.
  split; [exact Hout|]. split; [apply kebab_no_upper|].
  by apply kebab_no_upper.
Qed.

Lemma kebab_normal_form_witness :
  no_upper (kebab "NotFound") = true ∧
  kebab "not-found" = "not-found" ∧
  kebab (kebab "NotFound") = kebab "NotFound".
Proof.
  destruct (kebab_normal_form "NotFound" eq_refl) as (Hout & _ & Hidem).
  destruct (kebab_normal_form "not-found" eq_refl) as (_ & Hfix & _).
  exact (conj Hout (conj (Hfix eq_refl) Hidem)).
Defined.

(** ** Key paths *)

Lemma split_dot_nonempty s : split_dot s ≠ [].
Proof.
  destruct s as [|c s]; [done|]. cbn.
  destruct (Ascii.eqb c dot); [done|]. by destruct (split_dot s).
Qed.

Lemma join_cons_String sep c h t :
  join sep (String c h :: t) = String c (join sep (h :: t)).
Proof. by destruct t. Qed.

Lemma join_split_dot s : join "." (split_dot s) = s.
Proof.
  induction s as [|c s IH]; [done|]. cbn [split_dot].
  destruct (Ascii.eqb_spec c dot) as [->|_].
  - pose proof (split_dot_nonempty s) as Hne.
    destruct (split_dot s) as [|h t]; [done|].
    change (join "." (EmptyString :: h :: t))
      with (String dot (join "." (h :: t))).
    by rewrite IH.
  - pose proof (split_dot_nonempty s) as Hne.
    destruct (split_dot s) as [|h t]; [done|].
    by rewrite join_cons_String, IH.
Qed.

Lemma split_dot_all_dot_free s : forallb dot_free (split_dot s) = true.
Proof.
  induction s as [|c s IH]; [done|]. cbn [split_dot].
  destruct (Ascii.eqb c dot) eqn:Hc; [exact IH|].
  pose proof (split_dot_nonempty s) as Hne.
  destruct (split_dot s) as [|h t]; [done|].
  cbn in *. by rewrite Hc.
Qed.

(** ** The collection of [Aggregated] *)

Lemma _check_Ok v checked :
  _check v = Ok checked → checked = v ∧ all_instances v = true.
Proof.
  destruct (all_instances v) eqn:Hv.
  - rewrite _check_accepts by done. by intros [= <-].
  - destruct (_check_rejects v Hv) as [msg ->]. discriminate.
Qed.

Lemma all_instances_app l a :
  all_instances (VArr l) = true → all_instances (VArr a) = true →
  all_instances (VArr (l ++ a)) = true.
Proof. cbn. intros Hl Ha. by rewrite forallb_app, Hl, Ha. Qed.

(** X8. A successful [add] appends at the end and keeps the order: an array
    of instances is appended element by element, a single instance as one
    element, and no other field of the aggregate changes. *)
Theorem add_appends (ToString : value → string) (this : instance)
    (l a : list value) (e : instance) :
  _errors this = VArr l →
  forallb is_instance a = true →
  add ToString (VArr a) this = (with_errors (VArr (l ++ a)) this, Ok ()) ∧
  add ToString (VErr e) this = (with_errors (VArr (l ++ [VErr e])) this, Ok ()).
Proof.
  intros Hl Ha. unfold add. rewrite Hl. cbn [nullish isArray].
  rewrite (_check_accepts (VArr a)) by done.
  by rewrite (_check_accepts (VArr [VErr e])).
Qed.

Lemma add_appends_witness :
  add (λ _, "") (VErr sample_child) sample_aggregated =
    (with_errors (VArr ([VErr sample_child] ++ [VErr sample_child]))
       sample_aggregated, Ok ()).
Proof.
  exact (proj2 (add_appends (λ _, "") sample_aggregated [VErr sample_child] []
                  sample_child eq_refl eq_refl)).
Defined.

Lemma apply_update_invariant ToString this u :
  all_instances (_errors this) = true →
  all_instances (_errors (apply_update ToString this u)) = true.
Proof.
  intros Hinv. destruct u as [error|errors]; cbn [apply_update].
  - unfold add. destruct (nullish (_errors this)); [done|].
    destruct (_check _) as [checked|] eqn:Hcheck; [|done].
    apply _check_Ok in Hcheck as [-> Hchecked].
    destruct (_errors this) as [| | | | |l| |] eqn:Hl; try discriminate Hinv.
    assert (∃ a, (if isArray error then error else VArr [error]) = VArr a)
      as [a Ha].
    { destruct error; try discriminate Hchecked; eauto. }
    rewrite Ha in *. cbn [concat fst with_errors _errors].
    by apply all_instances_app.
  - unfold set_errors. destruct (_check errors) as [checked|] eqn:Hcheck;
      [|done].
    by apply _check_Ok in Hcheck as [-> Hchecked].
Qed.

(** X7. The collection invariant is kept by every sequence of [add] calls
    and [errors] assignments, whether they succeed or throw: starting from an
    aggregate whose collection is an array of instances (as built from no
    [errors] option, or from an array of instances), the collection is an
    array of instances after each of them. *)
Theorem collection_invariant (ToString : value → string) msg (o : obj) trace
    (us : list update) :
  nullish (get o "underlying") = true →
  nullish (get o "errors") = true ∨ all_instances (get o "errors") = true →
  all_instances (errors (new Aggregated msg (Some o) trace)) = true ∧
  all_instances
    (errors (apply_updates ToString (new Aggregated msg (Some o) trace) us))
    = true.
Proof.
  intros Hu He.
  assert (H0 : all_instances (errors (new Aggregated msg (Some o) trace))
               = true).
  { cbn [new]. unfold Aggregated_constructor, errors.
    rewrite _correctArguments_Some. cbn [with_errors _errors].
    unfold underlying_errors. rewrite Hu. unfold or_ at 1. cbn [truthy].
    destruct He as [He|He].
    - by destruct (get o "errors").
    - destruct (get o "errors"); try discriminate He. exact He. }
  split; [exact H0|]. unfold errors in *. unfold apply_updates.
  generalize dependent (new Aggregated msg (Some o) trace).
  induction us as [|u us IH]; intros this Hthis; [done|].
  cbn [foldl]. apply IH. by apply apply_update_invariant.
Qed.

Lemma collection_invariant_witness :
  all_instances
    (errors (apply_updates (λ _, "")
               (new Aggregated VUndefined (Some ∅) "")
               [Add (VErr sample_child); Add (VNum 42);
                SetErrors (VArr [VNull]); Add (VArr [VErr sample_error])]))
    = true.
Proof.
  exact (proj2 (collection_invariant (λ _, "") VUndefined ∅ ""
                  [Add (VErr sample_child); Add (VNum 42);
                   SetErrors (VArr [VNull]); Add (VArr [VErr sample_error])]
                  eq_refl (or_introl eq_refl))).
Defined.

(** ** Reconstruction *)

Lemma parse_unfold fuel data statusCode origin trace :
  parse (S fuel) data statusCode origin trace =
    match read data "message" with
    | Throw e => Some (Throw e)
    | Ok message =>
        let options :=
          merge ∅ [entries data;
                   {[ "message" := message;
                      "statusCode" := statusCode;
                      "origin" := origin ]}] in
        match parse_children fuel (get options "errors") statusCode origin
                trace with
        | None => None
        | Some (Throw e) => Some (Throw e)
        | Some (Ok errors) =>
            Some (Ok (new (_type (or_ (prop data "name") (VStr "bad-request")))
                          (VObj (<["errors" := errors]> options)) None trace))
        end
    end.
Proof.
  cbn [parse]. destruct (read data "message") as [message|]; [|done].
  cbv zeta. unfold parse_children.
  by destruct (get (merge ∅ [entries data; _]) "errors").
Qed.

Lemma parse_options_errors data statusCode origin errors :
  get (parse_options data statusCode origin errors) "errors" = errors.
Proof. unfold parse_options, get. by rewrite lookup_insert_eq. Qed.

(** X12. [parse] throws a [TypeError] on a payload that is [null] or
    [undefined], on a payload whose [errors] entry is neither absent, [null]
    nor an array, and on an [errors] array that starts with [null] or
    [undefined]. *)
Theorem parse_throws fuel (data : value) (o : obj) (l : list value)
    (child statusCode origin : value) trace :
  (nullish data = true →
   parse (S fuel) data statusCode origin trace
     = Some (Throw (TypeError None))) ∧
  (nullish (get o "errors") || isArray (get o "errors") = false →
   parse (S fuel) (VObj o) statusCode origin trace
     = Some (Throw (TypeError None))) ∧
  (get o "errors" = VArr (child :: l) → nullish child = true →
   parse (S fuel) (VObj o) statusCode origin trace
     = Some (Throw (TypeError None))).
Proof.
  split; [|split].
  - intros Hdata. rewrite parse_unfold. unfold read. by rewrite Hdata.
  - intros Herrors. rewrite parse_step.
    by destruct (get o "errors").
  - intros Herrors Hchild. rewrite parse_step, Herrors.
    cbn [parse_children mapM_fuel]. unfold read. by rewrite Hchild.
Qed.

Lemma parse_throws_witness :
  parse 1 VNull (VNum 400) VNull "" = Some (Throw (TypeError None)) ∧
  parse 1 (VObj {[ "errors" := VStr "x" ]}) (VNum 400) VNull ""
    = Some (Throw (TypeError None)) ∧
  parse 1 (VObj {[ "errors" := VArr [VNull] ]}) (VNum 400) VNull ""
    = Some (Throw (TypeError None)).
Proof.
  destruct (parse_throws 0 VNull {[ "errors" := VStr "x" ]} [] VNull
              (VNum 400) VNull "") as (H1 & H2 & _).
  destruct (parse_throws 0 VNull {[ "errors" := VArr [VNull] ]} [] VNull
              (VNum 400) VNull "") as (_ & _ & H3).
  exact (conj (H1 eq_refl) (conj (H2 eq_refl) (H3 eq_refl eq_refl))).
Defined.

(** X13. A payload whose name selects a variant (an absent or empty name
    selects [BadRequest]) is rebuilt as that variant with the variant's fixed
    status and name: the status code passed to [parse] is not used. The
    message is the payload's, or the variant's default when that is falsy,
    and the origin is the one passed to [parse]. *)
Theorem parse_known_variant fuel (data : obj) (c : Class)
    (code origin : value) trace :
  _type (or_ (get data "name") (VStr "bad-request")) = c →
  is_variant c = true →
  nullish (get data "errors") = true →
  data !! "origin" = None →
  ∃ p, parse (S fuel) (VObj data) code origin trace = Some (Ok p) ∧
       proto p = c ∧
       statusCode p = VNum (status c) ∧
       name p = VStr (wire_name c) ∧
       message p = or_ (get data "message") (VStr (default_message c)) ∧
       _origin p = origin.
Proof.
  intros Htype Hc Herrors Horigin. rewrite parse_step.
  assert (parse_children fuel (get data "errors") code origin trace
          = Some (Ok VUndefined)) as ->
    by (by destruct (get data "errors")).
  rewrite Htype. eexists. split; [reflexivity|].
  set (opts := parse_options data code origin VUndefined).
  destruct (new_variant_fields c (VObj opts) None trace Hc)
    as (Hp & Hm & Hn & _ & Hs & _ & _ & Ho & _).
  cbn [_correctArguments fst snd] in Hm, Hn, Ho. subst opts.
  rewrite parse_options_message in Hm.
  split; [exact Hp|]. split; [exact Hs|]. split; [|split; [exact Hm|]].
  - unfold name. rewrite Hn. unfold name_entry.
    rewrite parse_options_other by done.
    destruct (name_overridable c); [|done]. unfold or_ in *.
    destruct (truthy (get data "name")); [|done].
    by apply _type_variant_name.
  - rewrite Ho. unfold parse_options, get.
    rewrite lookup_insert_ne, merge_pair_lookup, Horigin by done.
    by rewrite !lookup_insert_ne, lookup_singleton_eq.
Qed.

(** [parse({message: 'x'}, 418, null)]: no name, hence [BadRequest] with
    status 400. *)
Lemma parse_known_variant_witness :
  ∃ p, parse 1 (VObj {[ "message" := VStr "x" ]}) (VNum 418) VNull ""
         = Some (Ok p) ∧
       proto p = BadRequest ∧
       statusCode p = VNum 400 ∧
       name p = VStr "bad-request" ∧
       message p = VStr "x" ∧
       _origin p = VNull.
Proof.
  exact (parse_known_variant 0 {[ "message" := VStr "x" ]} BadRequest
           (VNum 418) VNull "" eq_refl eq_refl eq_refl eq_refl).
Defined.

Lemma mapM_fuel_children {A} (f : A → option (result instance)) l cs :
  mapM_fuel (λ x, match f x with
                  | Some (Ok child) => Some (Ok (VErr child))
                  | Some (Throw e) => Some (Throw e)
                  | None => None
                  end) l = Some (Ok cs) →
  List.length cs = List.length l ∧ forallb is_instance cs = true.
Proof.
  revert cs. induction l as [|x l IH]; intros cs; cbn [mapM_fuel].
  - by intros [= <-].
  - destruct (f x) as [[child|]|]; try discriminate.
    destruct (mapM_fuel _ l) as [[cs'|]|]; try discriminate.
    intros [= <-]. destruct (IH cs' eq_refl) as [Hlen Hall].
    cbn. by rewrite Hlen, Hall.
Qed.

Lemma parse_children_Ok_inv fuel v code origin trace errs :
  parse_children fuel v code origin trace = Some (Ok errs) →
  (nullish v = true ∧ errs = VUndefined) ∨
  (∃ l cs, v = VArr l ∧ errs = VArr cs ∧
           List.length cs = List.length l ∧ forallb is_instance cs = true).
Proof.
  destruct v as [| | | | |l| |]; cbn [parse_children]; try discriminate;
    try (intros [= <-]; by left).
  destruct (mapM_fuel _ l) as [[cs|]|] eqn:Hmap; try discriminate.
  intros [= <-]. right. exists l, cs. split; [done|]. split; [done|].
  apply (mapM_fuel_children
           (λ error, match read error "stack" with
                     | Throw e => Some (Throw e)
                     | Ok _ => parse fuel error code origin trace
                     end)).
  rewrite <- Hmap. clear Hmap. induction l as [|x l IH]; [done|].
  cbn [mapM_fuel]. rewrite IH. by destruct (read x "stack").
Qed.

(** X14. An aggregated payload without an [underlying] entry is rebuilt
    with a collection that satisfies the invariant: one instance for each
    element of the payload's [errors] array, and the empty collection when
    the payload has no [errors]. *)
Theorem parse_aggregated_collection fuel (data : obj) (code origin : value)
    trace p :
  _type (or_ (get data "name") (VStr "bad-request")) = Aggregated →
  nullish (get data "underlying") = true →
  parse (S fuel) (VObj data) code origin trace = Some (Ok p) →
  all_instances (errors p) = true ∧
  (nullish (get data "errors") = true → errors p = VArr []) ∧
  (∀ l, get data "errors" = VArr l →
        ∃ cs, errors p = VArr cs ∧ List.length cs = List.length l).
Proof.
  intros Htype Hu. rewrite parse_step, Htype.
  destruct (parse_children fuel (get data "errors") code origin trace)
    as [[errs|]|] eqn:Hchildren; try discriminate.
  intros [= <-]. cbn [new]. unfold Aggregated_constructor, errors.
  cbn [_correctArguments with_errors _errors]. unfold underlying_errors.
  rewrite parse_options_other, parse_options_errors by done.
  rewrite Hu. unfold or_ at 1. cbn [truthy].
  destruct (parse_children_Ok_inv _ _ _ _ _ _ Hchildren)
    as [[Hnull ->]|(l & cs & Hl & -> & Hlen & Hall)].
  - split; [done|]. split; [done|]. intros l Hl. rewrite Hl in Hnull.
    discriminate Hnull.
  - split; [exact Hall|]. split.
    + rewrite Hl. discriminate.
    + intros l' Hl'. rewrite Hl in Hl'. injection Hl' as <-. eauto.
Qed.

Lemma parse_aggregated_collection_witness :
  ∃ p, parse 2 (VObj sample_aggregated_json) (VNum 400) VNull "" = Some (Ok p) ∧
       all_instances (errors p) = true ∧
       ∃ cs, errors p = VArr cs ∧ List.length cs = 1%nat.
Proof.
  assert (Hp : ∃ p, parse 2 (VObj sample_aggregated_json) (VNum 400) VNull ""
                    = Some (Ok p))
    by (vm_compute; eauto).
  destruct Hp as [p Hp]. exists p. split; [exact Hp|].
  destruct (parse_aggregated_collection 1 sample_aggregated_json (VNum 400)
              VNull "" p eq_refl eq_refl Hp) as (Hall & _ & Hlen).
  split; [exact Hall|]. exact (Hlen _ eq_refl).
Defined.

(** ** Termination of [parse] *)

Lemma height_element l c : c ∈ l → (height c < height (VArr l))%nat.
Proof.
  intros Hc. cbn [height]. apply Nat.lt_succ_r.
  induction Hc as [c l|c c' l _ IH]; cbn [foldr]; lia.
Qed.

Lemma height_lookup (m : obj) k x :
  m !! k = Some x → (height x < height (VObj m))%nat.
Proof.
  intros Hk. cbn [height].
  rewrite (map_fold_delete_L _ _ k x m); [lia | intros; lia | done].
Qed.

Lemma mapM_fuel_mono {A B} (f g : A → option (result B)) l r :
  (∀ x r, x ∈ l → f x = Some r → g x = Some r) →
  mapM_fuel f l = Some r → mapM_fuel g l = Some r.
Proof.
  revert r. induction l as [|x l IH]; intros r Hfg; [done|]. cbn [mapM_fuel].
  destruct (f x) as [rx|] eqn:Hx; [|discriminate].
  rewrite (Hfg x rx (list_elem_of_here _ _) Hx).
  destruct rx as [y|e]; [|done].
  destruct (mapM_fuel f l) as [rl|] eqn:Hl; [|discriminate].
  rewrite (IH rl); [done| |done].
  intros x' r' Hin. apply Hfg. by apply list_elem_of_further.
Qed.

Lemma mapM_fuel_Some {A B} (f : A → option (result B)) l :
  (∀ x, x ∈ l → is_Some (f x)) → is_Some (mapM_fuel f l).
Proof.
  induction l as [|x l IH]; intros Hf; [by eexists|]. cbn [mapM_fuel].
  destruct (Hf x (list_elem_of_here _ _)) as [[y|e] ->]; [|by eexists].
  destruct IH as [[ys|e] ->]; [|by eexists..].
  intros x' Hin. apply Hf. by apply list_elem_of_further.
Qed.

Lemma parse_more_fuel fuel data code origin trace r :
  parse fuel data code origin trace = Some r →
  parse (S fuel) data code origin trace = Some r.
Proof.
  revert data r. induction fuel as [|fuel IH]; intros data r; [done|].
  rewrite !parse_unfold.
  destruct (read data "message") as [message|]; [|done]. cbv zeta.
  set (errs := get _ "errors").
  assert (Hchildren : ∀ rc,
    parse_children fuel errs code origin trace = Some rc →
    parse_children (S fuel) errs code origin trace = Some rc).
  { intros rc. destruct errs as [| | | | |l| |]; try done.
    cbn [parse_children].
    destruct (mapM_fuel _ l) as [rl|] eqn:Hl; [|discriminate].
    erewrite mapM_fuel_mono; [done| |exact Hl].
    intros x rx _. cbv beta. destruct (read x "stack"); [|done].
    destruct (parse fuel x code origin trace) as [rp|] eqn:Hp; [|discriminate].
    by rewrite (IH x rp Hp). }
  destruct (parse_children fuel errs code origin trace) as [rc|] eqn:Hrc;
    [|discriminate].
  by rewrite (Hchildren rc eq_refl).
Qed.

Lemma parse_enough_fuel fuel data code origin trace :
  (height data < fuel)%nat → is_Some (parse fuel data code origin trace).
Proof.
  revert data. induction fuel as [|fuel IH]; intros data Hh; [lia|].
  rewrite parse_unfold.
  destruct (read data "message") as [message|]; [|by eexists]. cbv zeta.
  rewrite get_merge_pair_l
    by (by rewrite !lookup_insert_ne, lookup_singleton_ne).
  assert (Hchildren :
    is_Some (parse_children fuel (get (entries data) "errors") code origin
               trace)).
  { destruct (get (entries data) "errors") as [| | | | |l| |] eqn:Hl;
      try by eexists.
    cbn [parse_children].
    assert (Hl' : ∀ x, x ∈ l → (height x < fuel)%nat).
    { intros x Hx. destruct data as [| | | | | |m|]; try discriminate Hl.
      cbn [entries] in Hl. unfold get in Hl.
      destruct (m !! "errors") as [v|] eqn:Hm; [|discriminate Hl].
      cbn in Hl. subst v.
      pose proof (height_lookup m _ _ Hm). pose proof (height_element l x Hx).
      lia. }
    match goal with |- context [mapM_fuel ?f l] =>
      destruct (mapM_fuel_Some f l) as [[cs|e] ->]; [|by eexists..]
    end.
    intros x Hx. destruct (read x "stack"); [|by eexists].
    destruct (IH x (Hl' x Hx)) as [[child|e] ->]; by eexists. }
  destruct Hchildren as [[errs|e] ->]; by eexists.
Qed.

(** X17. [parse] terminates on every payload: with fuel above the payload's
    nesting height it returns an instance or throws, and the outcome is the
    same for every such amount of fuel. *)
Theorem parse_terminates data code origin trace :
  ∃ r, ∀ fuel, (height data < fuel)%nat →
               parse fuel data code origin trace = Some r.
Proof.
  destruct (parse_enough_fuel (S (height data)) data code origin trace)
    as [r Hr]; [lia|].
  exists r. intros fuel Hfuel.
  induction fuel as [|fuel IH]; [lia|].
  destruct (decide (fuel = height data)) as [->|Hne]; [exact Hr|].
  apply parse_more_fuel, IH. lia.
Qed.

Lemma parse_terminates_witness :
  ∃ r, parse 5 (VObj sample_aggregated_json) (VNum 400) VNull "" = Some r.
Proof.
  destruct (parse_terminates (VObj sample_aggregated_json) (VNum 400) VNull "")
    as [r Hr].
  exists r. apply Hr. vm_compute. lia.
Defined.

(** ** Serialisation *)

Lemma mapM_result_Throw {A B} (f : A → result B) l x :
  x ∈ l → (∃ e, f x = Throw e) → ∃ e, mapM_result f l = Throw e.
Proof.
  intros Hx [e He]. induction Hx as [x l|x y l _ IH]; cbn [mapM_result].
  - rewrite He. eauto.
  - destruct (f y); [|eauto]. destruct (IH He) as [e' ->]. eauto.
Qed.

Lemma mapM_result_Ok {A B} (f : A → result B) l :
  Forall (λ x, ∃ y, f x = Ok y) l → ∃ ys, mapM_result f l = Ok ys.
Proof.
  induction 1 as [|x l [y Hy] _ [ys IH]]; [by exists []|].
  exists (y :: ys). cbn [mapM_result]. by rewrite Hy, IH.
Qed.

Section MoreHostProperties.
Variable trenskow_stack : value → value.
Variable ToString : value → string.
Variable ToNumber_positive : value → bool.

Local Abbreviation toJSON_ := (toJSON trenskow_stack ToString ToNumber_positive).
Local Abbreviation ApiError_toJSON_ :=
  (ApiError_toJSON trenskow_stack ToString ToNumber_positive).
Local Abbreviation stacked_ := (stacked trenskow_stack).
Local Abbreviation keyPath_json_ := (keyPath_json ToString ToNumber_positive).

Lemma keyPath_json_segments (segments : list string) :
  segments ≠ [] →
  keyPath_json_ (VArr (VStr <$> segments)) = Ok (VStr (join "." segments)).
Proof.
  intros Hne. unfold keyPath_json.
  assert (Hgt : gt_zero ToNumber_positive
                  (prop (VArr (VStr <$> segments)) "length") = true)
    by (by destruct segments).
  rewrite Hgt. cbn [truthy]. do 2 f_equal.
  rewrite <- list_fmap_compose.
  replace (element_string ToString ∘ VStr) with (@id string) by done.
  by rewrite list_fmap_id.
Qed.

(** X2. A key path given as a dot-delimited string is stored as the sequence
    of its segments and serialised back to the very same string, whatever the
    string (empty segments included). *)
Theorem keyPath_string_roundtrip c msg opts (s : string) trace config json :
  (_correctArguments msg opts).2 !! "keyPath" = Some (VStr s) →
  toJSON_ (VErr (new c msg opts trace)) config = Ok json →
  _keyPath (new c msg opts trace) = VArr (VStr <$> split_dot s) ∧
  json !! "keyPath" = Some (VStr s).
Proof.
  intros Hkp Hjson.
  assert (Hfield : _keyPath (new c msg opts trace)
                   = VArr (VStr <$> split_dot s)).
  { destruct (new_fields c msg opts trace) as (_ & _ & _ & _ & -> & _).
    unfold get. by rewrite Hkp. }
  split; [exact Hfield|].
  destruct (toJSON_lookup _ _ _ _ _ _ "keyPath" Hjson ltac:(done))
    as (this & name & keyPath & [= <-] & _ & Hk & ->).
  rewrite base_json_lookup. eval_decide.
  rewrite Hfield, keyPath_json_segments in Hk by apply split_dot_nonempty.
  injection Hk as <-. by rewrite join_split_dot.
Qed.

(** X6. A variant built from an options mapping without a name override
    serialises under its fixed wire name, and that name selects the variant's
    own class in [parse]. *)
Theorem serialised_name_selects_class c msg opts trace config json :
  options_as_mapping msg opts = true →
  is_variant c = true →
  name_overridable c = false ∨
    truthy (get (_correctArguments msg opts).2 "name") = false →
  toJSON_ (VErr (new c msg opts trace)) config = Ok json →
  json !! "name" = Some (VStr (wire_name c)) ∧
  _type (or_ (get json "name") (VStr "bad-request")) = c.
Proof.
  intros _ Hc Hname Hjson.
  assert (Hfield : _name (new c msg opts trace) = VStr (wire_name c)).
  { destruct (new_variant_fields c msg opts trace Hc) as (_ & _ & -> & _).
    unfold name_entry, or_. destruct Hname as [->| ->]; [done|].
    by destruct (name_overridable c). }
  destruct (toJSON_lookup _ _ _ _ _ _ "name" Hjson ltac:(done))
    as (this & name & keyPath & [= <-] & Hn & _ & Hlookup).
  rewrite base_json_lookup in Hlookup. revert Hlookup. eval_decide.
  intros Hlookup. rewrite Hfield, name_json_wire_name in Hn by done.
  injection Hn as <-.
  split; [exact Hlookup|]. unfold get. rewrite Hlookup. cbn [default].
  destruct c; try discriminate Hc; vm_compute; reflexivity.
Qed.

(** X9. The [errors] entry of a serialised [Aggregated] lists the children's
    own serialisations (under the same config), one per child and in the
    order of the collection. *)
Theorem Aggregated_toJSON_children (this : instance) (l : list value)
    (config json : obj) :
  proto this = Aggregated →
  _errors this = VArr l →
  toJSON_ (VErr this) config = Ok json →
  ∃ children,
    json !! "errors" = Some (VArr (VObj <$> children)) ∧
    Forall2 (λ child j, toJSON_ child config = Ok j) l children.
Proof.
  intros Hp Hl Hjson.
  destruct (toJSON_Ok _ _ _ _ _ _ Hjson) as (? & base & [= <-] & Hbase & Hcase).
  rewrite decide_True in Hcase by done.
  destruct Hcase as (l' & children & Hl' & Hmap & ->).
  rewrite Hl in Hl'. injection Hl' as <-. exists children. split.
  - destruct (ApiError_toJSON_Ok _ _ _ _ _ _ Hbase) as (? & ? & _ & _ & ->).
    rewrite merge_pair_lookup, base_json_lookup. eval_decide.
    by rewrite lookup_singleton_eq.
  - by apply mapM_result_Forall2.
Qed.

(** X10. Serialising an [Aggregated] whose collection holds a value that is
    not an instance (which the constructor admits) throws: such an element
    has no [toJSON]. *)
Theorem Aggregated_toJSON_throws (this : instance) (l : list value)
    (v : value) (config : obj) :
  proto this = Aggregated →
  _errors this = VArr l →
  v ∈ l →
  is_instance v = false →
  ∃ e, toJSON_ (VErr this) config = Throw e.
Proof.
  intros Hp Hl Hv Hinst. cbn [toJSON]. rewrite Hp, Hl.
  unfold mbind, result_bind.
  destruct (ApiError_toJSON_ this config); [|eauto].
  destruct (mapM_result_Throw (λ error, toJSON_ error config) l v Hv)
    as [e ->]; [|eauto].
  destruct v; try discriminate Hinst; eauto.
Qed.

(** X11. Serialising an instance of any class but [Aggregated] returns
    whenever the instance was built from an options mapping with a [name]
    option that is a string or falsy and a [keyPath] option that is absent, a
    string or an array of primitive values. *)
Theorem toJSON_returns c msg opts trace config :
  options_as_mapping msg opts = true →
  c ≠ Aggregated →
  string_or_falsy (get (_correctArguments msg opts).2 "name") = true →
  plain_keyPath (get (_correctArguments msg opts).2 "keyPath") = true →
  ∃ json, toJSON_ (VErr (new c msg opts trace)) config = Ok json.
Proof.
  intros _ Hc Hname Hkp.
  set (o := (_correctArguments msg opts).2) in *.
  assert (Hn : ∃ n, name_json (_name (new c msg opts trace)) = Ok n).
  { assert (Hfield : string_or_falsy (_name (new c msg opts trace)) = true).
    { destruct (is_variant c) eqn:Hv.
      - destruct (new_variant_fields c msg opts trace Hv) as (_ & _ & -> & _).
        fold o. unfold name_entry, or_.
        destruct (name_overridable c); [|done].
        by destruct (truthy (get o "name")).
      - destruct c; try discriminate Hv. cbn [new].
        by destruct (base_constructor_fields ApiError msg opts trace)
          as (_ & _ & -> & _). }
    unfold name_json. destruct (_name _) as [| |b|n|s| | |];
      try discriminate Hfield; cbn in *; eauto.
    - rewrite negb_true_iff in Hfield. rewrite Hfield. eauto.
    - rewrite negb_true_iff in Hfield. rewrite Hfield. eauto.
    - destruct (negb _); eauto. }
  assert (Hk : ∃ k, keyPath_json_ (_keyPath (new c msg opts trace)) = Ok k).
  { destruct (new_fields c msg opts trace) as (_ & _ & _ & _ & -> & _).
    fold o. unfold keyPath_json.
    destruct (get o "keyPath") as [| | | |s|l| |]; try discriminate Hkp;
      cbn [normal_keyPath truthy]; eauto;
      by destruct (gt_zero _ _); eauto. }
  destruct Hn as [n Hn], Hk as [k Hk].
  exists (base_json trenskow_stack (new c msg opts trace) config n k).
  assert (Hproto : proto (new c msg opts trace) = c)
    by apply (new_fields c msg opts trace).
  cbn [toJSON]. rewrite Hproto.
  assert (Hbase : ApiError_toJSON_ (new c msg opts trace) config =
                  Ok (base_json trenskow_stack (new c msg opts trace) config
                        n k)).
  { unfold ApiError_toJSON, mbind, result_bind. by rewrite Hn, Hk. }
  by destruct c.
Qed.

(** X15. On a chain of at most two links the structured stack of a wrapper
    is that of the root error: the root's pre-supplied stack when it has a
    truthy one, the formatter applied to the root's captured trace
    otherwise. The wrapper's own stack and trace are not used. *)
Theorem stacked_reports_root (this r : instance) :
  at_most_two_links this →
  root (VErr this) = VErr r →
  stacked_ this =
    if truthy (_stacked r) then _stacked r else trenskow_stack (stack r).
Proof.
  intros Hshort Hroot. unfold stacked, stackToJSON.
  by rewrite (actual_root_short_chain this Hshort), Hroot.
Qed.

Lemma or_or_default m d : truthy d = true → or_ (or_ m d) d = or_ m d.
Proof. intros Hd. unfold or_. by destruct (truthy m) eqn:Hm; rewrite ?Hm, ?Hd. Qed.

Lemma default_message_truthy c :
  is_variant c = true → truthy (VStr (default_message c)) = true.
Proof. by destruct c. Qed.

(** X16. A variant built from an options mapping, without a name override
    and with its key path absent or given as a dotted string, survives the
    round trip through [toJSON] (stack included) and [parse]: same class,
    status, name, message, entity, key path and structured stack, provided
    the structured stack is truthy. *)
Theorem constructed_variant_roundtrip c msg opts trace (json : obj)
    (origin : value) (trace' : string) (fuel : nat) :
  options_as_mapping msg opts = true →
  is_variant c = true →
  name_overridable c = false ∨
    truthy (get (_correctArguments msg opts).2 "name") = false →
  string_or_undefined (get (_correctArguments msg opts).2 "keyPath") = true →
  toJSON_ (VErr (new c msg opts trace)) {[ "includeStack" := VBool true ]}
    = Ok json →
  truthy (stacked_ (new c msg opts trace)) = true →
  (depth (VErr (new c msg opts trace)) < fuel)%nat →
  ∃ p, parse fuel (VObj json) (statusCode (new c msg opts trace)) origin trace'
         = Some (Ok p) ∧
       proto p = c ∧
       statusCode p = statusCode (new c msg opts trace) ∧
       name p = name (new c msg opts trace) ∧
       message p = message (new c msg opts trace) ∧
       _entity p = _entity (new c msg opts trace) ∧
       _keyPath p = _keyPath (new c msg opts trace) ∧
       stacked_ p = stacked_ (new c msg opts trace).
Proof.
  intros _ Hc Hname Hkp Hjson Hstack Hfuel.
  set (e := new c msg opts trace) in *.
  set (o := (_correctArguments msg opts).2) in *.
  destruct (new_variant_fields c msg opts trace Hc)
    as (_ & Em & En & _ & Es & _ & Ek & _). fold e o in Em, En, Es, Ek.
  assert (En' : _name e = VStr (wire_name c)).
  { rewrite En. unfold name_entry, or_. destruct Hname as [->| ->]; [done|].
    by destruct (name_overridable c). }
  destruct (parse_toJSON trenskow_stack ToString ToNumber_positive fuel _ _ _
              (statusCode e) origin trace' Hfuel Hjson) as [errs Hp].
  destruct (toJSON_gets trenskow_stack ToString ToNumber_positive _ _ _ Hjson)
    as (n & k & Hn & Hk & Gname & Gmsg & Gent & Gkp & Gstack & Gund).
  assert (Hinclude : truthy (get ({[ "includeStack" := VBool true ]} : obj)
                               "includeStack") = true) by reflexivity.
  rewrite Hinclude in Gstack. clear Hinclude.
  rewrite En', name_json_wire_name in Hn by done. injection Hn as <-.
  assert (Hclass : _type (or_ (get json "name") (VStr "bad-request")) = c).
  { rewrite Gname. destruct c; try discriminate Hc; vm_compute; reflexivity. }
  rewrite Hclass in Hp. eexists. split; [exact Hp|].
  set (opts' := parse_options json (statusCode e) origin errs).
  destruct (new_variant_fields c (VObj opts') None trace' Hc)
    as (Fp & Fm & Fn & Fe & Fs & Fst & Fk & _ & Fu & _).
  cbn [_correctArguments fst snd] in Fm, Fn, Fe, Fst, Fk, Fu. subst opts'.
  rewrite parse_options_message, Gmsg in Fm.
  rewrite parse_options_other in Fe, Fst, Fk, Fu by done.
  unfold name_entry in Fn. rewrite parse_options_other, Gname in Fn by done.
  rewrite Gent in Fe. rewrite Gstack in Fst. rewrite Gkp in Fk.
  rewrite Gund in Fu.
  split; [exact Fp|]. split; [transitivity (VNum (status c)); [exact Fs | symmetry; exact Es]|].
  split; [|split; [|split; [exact Fe|split]]].
  - unfold name. rewrite Fn, En'. unfold or_.
    destruct (name_overridable c); [|done].
    by destruct c; try discriminate Hc.
  - rewrite Fm, Em. apply or_or_default. by apply default_message_truthy.
  - rewrite Fk, Ek. rewrite Ek in Hk.
    destruct (get o "keyPath") as [| | | |s| | |]; try discriminate Hkp;
      cbn [normal_keyPath] in *.
    + cbn in Hk. by injection Hk as <-.
    + rewrite keyPath_json_segments in Hk by apply split_dot_nonempty.
      injection Hk as <-. cbn [normal_keyPath]. by rewrite join_split_dot.
  - unfold stacked at 1, actual. rewrite Fu.
    change (or_ VUndefined ?v) with v.
    change (prop (VObj ∅) "underlying") with VUndefined.
    change (or_ VUndefined ?v) with v.
    change (prop (VErr ?p) "_stacked") with (_stacked p).
    rewrite Fst. by rewrite Hstack.
Qed.

End MoreHostProperties.
Lemma keyPath_string_roundtrip_witness :
  _keyPath sample_child = VArr (VStr <$> split_dot "a.b") ∧
  ({[ "name" := VStr "not-found";
      "message" := VStr "gone";
      "entity" := VStr "user";
      "keyPath" := VStr "a.b";
      "stack" := VUndefined ]} : obj) !! "keyPath" = Some (VStr "a.b").
Proof.
  assert (Hjson : toJSON (λ s, VArr [s]) (λ _, "") (λ _, false)
                    (VErr sample_child) ∅
                  = Ok {[ "name" := VStr "not-found";
                          "message" := VStr "gone";
                          "entity" := VStr "user";
                          "keyPath" := VStr "a.b";
                          "stack" := VUndefined ]})
    by (vm_compute; reflexivity).
  exact (keyPath_string_roundtrip (λ s, VArr [s]) (λ _, "") (λ _, false)
           NotFound (VStr "gone")
           (Some {[ "entity" := VStr "user"; "keyPath" := VStr "a.b" ]})
           "a.b" "at f" ∅ _ eq_refl Hjson).
Defined.

Lemma serialised_name_selects_class_witness :
  sample_json !! "name" = Some (VStr (wire_name NotFound)) ∧
  _type (or_ (get sample_json "name") (VStr "bad-request")) = NotFound.
Proof.
  assert (Hjson : toJSON (λ s, VArr [s]) (λ _, "") (λ _, false)
                    (VErr sample_error) {[ "includeStack" := VBool true ]}
                  = Ok sample_json)
    by (vm_compute; reflexivity).
  exact (serialised_name_selects_class (λ s, VArr [s]) (λ _, "") (λ _, false)
           NotFound (VStr "gone")
           (Some {[ "entity" := VStr "user"; "origin" := VStr "svc" ]})
           "at f" _ _ eq_refl eq_refl (or_intror eq_refl) Hjson).
Defined.

Lemma Aggregated_toJSON_throws_witness :
  ∃ e, toJSON (λ s, VArr [s]) (λ _, "") (λ _, false)
         (VErr (new Aggregated (VObj {[ "errors" := VArr [VNum 42] ]}) None ""))
         ∅ = Throw e.
Proof.
  exact (Aggregated_toJSON_throws (λ s, VArr [s]) (λ _, "") (λ _, false)
           (new Aggregated (VObj {[ "errors" := VArr [VNum 42] ]}) None "")
           [VNum 42] (VNum 42) ∅ eq_refl eq_refl
           (list_elem_of_here _ _) eq_refl).
Defined.

Lemma options_bag_keeps_other_keys_witness :
  options (new NotFound (VStr "gone")
             (Some {[ "requestId" := VStr "r-1"; "entity" := VStr "user" ]}) "")
    !! "requestId" = Some (VStr "r-1").
Proof.
  refine (options_bag_keeps_other_keys NotFound (VStr "gone")
            (Some {[ "requestId" := VStr "r-1"; "entity" := VStr "user" ]}) ""
            "requestId" eq_refl _).
  unfold consumed_keys. intros Hin.
  repeat (apply elem_of_cons in Hin as [Hin|Hin]; [discriminate Hin|]).
  by apply elem_of_nil in Hin.
Defined.

Lemma Aggregated_toJSON_children_witness :
  ∃ children,
    sample_aggregated_json !! "errors" = Some (VArr (VObj <$> children)) ∧
    Forall2 (λ child j, toJSON (λ s, VArr [s]) (λ _, "") (λ _, false) child
                          {[ "includeStack" := VBool true ]} = Ok j)
      [VErr sample_child] children.
Proof.
  assert (Hjson : toJSON (λ s, VArr [s]) (λ _, "") (λ _, false)
                    (VErr sample_aggregated)
                    {[ "includeStack" := VBool true ]}
                  = Ok sample_aggregated_json) by (vm_compute; reflexivity).
  exact (Aggregated_toJSON_children (λ s, VArr [s]) (λ _, "") (λ _, false)
           sample_aggregated [VErr sample_child] _ _ eq_refl eq_refl Hjson).
Defined.

Lemma toJSON_returns_witness :
  ∃ json, toJSON (λ s, VArr [s]) (λ _, "") (λ _, false) (VErr sample_error) ∅
          = Ok json.
Proof.
  exact (toJSON_returns (λ s, VArr [s]) (λ _, "") (λ _, false) NotFound
           (VStr "gone")
           (Some {[ "entity" := VStr "user"; "origin" := VStr "svc" ]}) "at f"
           ∅ eq_refl ltac:(discriminate) eq_refl eq_refl).
Defined.

Lemma stacked_reports_root_witness :
  stacked (λ s, VArr [s]) chain_B =
    if truthy (_stacked chain_D) then _stacked chain_D
    else VArr [stack chain_D].
Proof.
  assert (Hshort : at_most_two_links chain_B) by (vm_compute; reflexivity).
  assert (Hroot : root (VErr chain_B) = VErr chain_D)
    by (vm_compute; reflexivity).
  exact (stacked_reports_root (λ s, VArr [s]) chain_B chain_D Hshort Hroot).
Defined.

Lemma constructed_variant_roundtrip_witness :
  ∃ p, parse 1 (VObj {[ "name" := VStr "not-found";
                        "message" := VStr "gone";
                        "entity" := VStr "user";
                        "keyPath" := VStr "a.b";
                        "stack" := VArr [VStr "at f"] ]})
         (statusCode sample_child) VNull "at g" = Some (Ok p) ∧
       proto p = NotFound ∧
       statusCode p = statusCode sample_child ∧
       name p = name sample_child ∧
       message p = message sample_child ∧
       _entity p = _entity sample_child ∧
       _keyPath p = _keyPath sample_child ∧
       stacked (λ s, VArr [s]) p = stacked (λ s, VArr [s]) sample_child.
Proof.
  assert (Hjson : toJSON (λ s, VArr [s]) (λ _, "") (λ _, false)
                    (VErr sample_child) {[ "includeStack" := VBool true ]}
                  = Ok {[ "name" := VStr "not-found";
                          "message" := VStr "gone";
                          "entity" := VStr "user";
                          "keyPath" := VStr "a.b";
                          "stack" := VArr [VStr "at f"] ]})
    by (vm_compute; reflexivity).
  assert (Hstack : truthy (stacked (λ s, VArr [s]) sample_child) = true)
    by (vm_compute; reflexivity).
  assert (Hdepth : (depth (VErr sample_child) < 1)%nat) by (vm_compute; lia).
  exact (constructed_variant_roundtrip (λ s, VArr [s]) (λ _, "") (λ _, false)
           NotFound (VStr "gone")
           (Some {[ "entity" := VStr "user"; "keyPath" := VStr "a.b" ]}) "at f"
           _ VNull "at g" 1 eq_refl eq_refl (or_intror eq_refl) eq_refl Hjson
           Hstack Hdepth).
Defined.
